(** * TaskManager: the slot grid and the scheduling algorithm

    A shallow embedding of [generateTimeSlots] and [generateSchedule] of
    [src/components/TaskManager.tsx], and the properties of the ranking
    and of the placement loop.

    Conventions of the embedding.
    - JavaScript numbers that hold integers (hours, minutes, ranks, time
      values) are [Z]; array indices and counters that only count up from
      zero are [nat].
    - A plain object used as a dictionary is a [gmap]; reading a missing
      property ([undefined], which is falsy) is a lookup that gives [None].
      A stored task is an object, hence truthy.
    - [currentDate] is a day number that counts the date keys the loop
      reaches: the key [currentDate.toISOString().split("T")[0]] of the
      reference instant, read from the clock by [new Date()] and here an
      argument, is the reference date, and each [setDate(getDate() + 1)]
      goes to the next number.  The source advances a local day and keys
      it by the UTC date, so the keys it reaches are increasing dates but
      not always successive ones: over a local day of 25 hours a date can
      be left out, and over one of 23 hours a key can come twice (the
      round on it finds the rest of the day as short as before and places
      nothing).  Where the zone has no clock change the day numbers are
      the dates.  The numbered theorems on dates use the order of the day
      numbers and not their differences.
    - The [while (!scheduled)] loop has no bound in the source; here it
      takes a number of rounds ([fuel]), one per day number tried, and
      gives [None] when they are used up before the task is placed.  The
      source has no [throw] of its own.  A run that no number of rounds
      ends gives [None] for every [fuel]: it returns no schedule (in the
      source it goes on until the date leaves the range of [Date], where
      [toISOString] fails).
    - Tasks are records, compared by their fields.  The tasks of the data
      model have different ids, so a list of them has no record twice
      ([NoDup]); the properties that tell one task from another take the
      input list so. *)

From stdpp Require Import gmap strings list fin_maps pretty sorting.

Open Scope Z_scope.

(** ** Data model *)

(** [importance: "ASAP" | "High" | "Average" | "Low"] *)
Inductive Importance := ImpASAP | High | Average | Low.

(** [priority: "ASAP" | "Hard deadline" | "Soft deadline" | "No deadline"] *)
Inductive Priority := PrioASAP | HardDeadline | SoftDeadline | NoDeadline.

(** [interface Task].  [deadline] is the date of the task as
    [new Date(deadline).getTime()] reads it, the only use the scheduler
    makes of it. *)
Record Task := mkTask {
  id : Z;
  title : string;
  duration : Z;
  importance : Importance;
  priority : Priority;
  deadline : Z
}.

#[global] Instance Importance_eq_dec : EqDecision Importance.
Proof. solve_decision. Defined.
#[global] Instance Priority_eq_dec : EqDecision Priority.
Proof. solve_decision. Defined.
#[global] Instance Task_eq_dec : EqDecision Task.
Proof. solve_decision. Defined.

(** [type Schedule = Record<string, Record<string, Task>>]: date, then slot
    label, to the task in that slot. *)
Abbreviation DaySlots := (gmap string Task).
Abbreviation Schedule := (gmap Z (gmap string Task)).

(** [schedule[date][label]], with [None] when the date or the label is
    absent. *)
Definition taskAt (schedule : Schedule) (date : Z) (label : string)
  : option Task :=
  match schedule !! date with
  | Some day => day !! label
  | None => None
  end.

(** ** generateTimeSlots *)

(** The template literals [`${hour}:00`] and [`${hour}:30`]. *)
Definition slotLabel (hour : Z) (minutes : string) : string :=
  pretty hour +:+ ":" +:+ minutes.

(** The [for] loop of [generateTimeSlots]: [slots] is the array built so
    far, and each round tests [hour < endHour], pushes two labels and
    increments [hour]. *)
Fixpoint slotLoop (rounds : nat) (hour endHour : Z) (slots : list string)
  : list string :=
  match rounds with
  | O => slots
  | S rounds' =>
      if hour <? endHour
      then slotLoop rounds' (hour + 1) endHour
             (slots ++ [slotLabel hour "00"] ++ [slotLabel hour "30"])
      else slots
  end.

(** The loop leaves after [endHour - startHour] rounds, or at once when
    that is not positive, so this many rounds run it to its end
    ([slotLoop_exit] below). *)
Definition generateTimeSlots (startHour endHour : Z) : list string :=
  slotLoop (Z.to_nat (endHour - startHour)) startHour endHour [].

(** [generateTimeSlots()] with its default arguments. *)
Definition defaultTimeSlots : list string := generateTimeSlots 9 17.

(** The grid as the specification words it: for each hour [h] of
    [startHour, endHour), in increasing order, the labels [h:00], [h:30]. *)
Definition slotGridSpec (startHour endHour : Z) : list string :=
  h ← seqZ startHour (endHour - startHour);
  [slotLabel h "00"; slotLabel h "30"].

(** ** Ranking *)

Definition priorityOrder (p : Priority) : Z :=
  match p with
  | PrioASAP => 0
  | HardDeadline => 1
  | SoftDeadline => 2
  | NoDeadline => 3
  end.

Definition importanceOrder (i : Importance) : Z :=
  match i with
  | ImpASAP => 0
  | High => 1
  | Average => 2
  | Low => 3
  end.

(** The comparator handed to [sort]. *)
Definition compareTasks (a b : Task) : Z :=
  if negb (priorityOrder (priority a) =? priorityOrder (priority b))
  then priorityOrder (priority a) - priorityOrder (priority b)
  else if negb (importanceOrder (importance a) =? importanceOrder (importance b))
  then importanceOrder (importance a) - importanceOrder (importance b)
  else deadline a - deadline b.

(** [Array.prototype.sort] with a comparator.  The language standard
    makes the sort stable and leaves the algorithm open; for a consistent
    comparator the result does not depend on it
    ([arraySort_unique] below), and this is insertion from the right: [x]
    goes before the first [y] with [cmp x y <= 0]. *)
Fixpoint sortInsert {A} (cmp : A → A → Z) (x : A) (l : list A) : list A :=
  match l with
  | [] => [x]
  | y :: l' => if cmp x y <=? 0 then x :: y :: l' else y :: sortInsert cmp x l'
  end.

Definition arraySort {A} (cmp : A → A → Z) (l : list A) : list A :=
  foldr (sortInsert cmp) [] l.

(** [a] may stand before [b] for the comparator: the sort leaves a pair
    in this order as it is. *)
Definition cmpLe {A} (cmp : A → A → Z) (a b : A) : Prop := cmp a b ≤ 0.

(** [const sortedTasks = [...tasks].sort(...)] *)
Definition sortedTasks (tasks : list Task) : list Task :=
  arraySort compareTasks tasks.

(** The three keys of the ranking and their lexicographic order. *)
Definition rankKey (t : Task) : Z * Z * Z :=
  (priorityOrder (priority t), importanceOrder (importance t), deadline t).

Definition lexLt (k1 k2 : Z * Z * Z) : Prop :=
  k1.1.1 < k2.1.1 ∨
  (k1.1.1 = k2.1.1 ∧ (k1.1.2 < k2.1.2 ∨ (k1.1.2 = k2.1.2 ∧ k1.2 < k2.2))).

Definition lexLe (k1 k2 : Z * Z * Z) : Prop := lexLt k1 k2 ∨ k1 = k2.

Definition rankLe (a b : Task) : Prop := lexLe (rankKey a) (rankKey b).

(** ** Placement *)

(** [Math.ceil(x / 30)] for an integer [x]. *)
Definition ceilDiv (a b : Z) : Z := - ((- a) `div` b).

Definition slotsNeeded (task : Task) : Z := ceilDiv (duration task) 30.

(** The variables the placement loop works on. *)
Record State := mkState {
  schedule : Schedule;
  currentDate : Z;
  currentSlotIndex : nat
}.

Section Placement.
(** [const timeSlots = generateTimeSlots()] *)
Variable timeSlots : list string.

(** The scan [for (let i = currentSlotIndex; i < timeSlots.length; i++)].
    [rest] holds the labels [timeSlots[i]], [timeSlots[i+1]], ... still to
    visit.  The result is the [i] at which [availableSlots] reached
    [slotsNeeded], with that [availableSlots]; [None] when the loop runs
    off the end of the grid. *)
Fixpoint scan (day : DaySlots) (needed : Z) (rest : list string)
    (i availableSlots : nat) : option (nat * nat) :=
  match rest with
  | [] => None
  | label :: rest' =>
      match day !! label with
      | None =>
          let availableSlots := S availableSlots in
          if Z.of_nat availableSlots =? needed
          then Some (i, availableSlots)
          else scan day needed rest' (S i) availableSlots
      | Some _ => scan day needed rest' (S i) O
      end
  end.

(** The labels [timeSlots[j]] for [j] from [i - availableSlots + 1] to
    [i]. *)
Definition runLabels (i availableSlots : nat) : list string :=
  take availableSlots (drop (i + 1 - availableSlots)%nat timeSlots).

(** [for (j ...) schedule[dateString][timeSlots[j]] = task] *)
Definition assignRun (task : Task) (labels : list string) (day : DaySlots)
  : DaySlots :=
  foldl (λ d label, <[label := task]> d) day labels.

(** [if (!schedule[dateString]) schedule[dateString] = {}] *)
Definition ensureDay (schedule : Schedule) (date : Z) : Schedule :=
  match schedule !! date with
  | Some _ => schedule
  | None => <[date := ∅]> schedule
  end.

(** The [while (!scheduled)] loop for one task: one round per day
    tried. *)
Fixpoint placeTask (fuel : nat) (task : Task) (st : State) : option State :=
  match fuel with
  | O => None
  | S fuel' =>
      let date := currentDate st in
      let schedule := ensureDay (schedule st) date in
      let day := default ∅ (schedule !! date) in
      match scan day (slotsNeeded task)
              (drop (currentSlotIndex st) timeSlots)
              (currentSlotIndex st) O with
      | Some (i, availableSlots) =>
          Some {| schedule :=
                    <[date := assignRun task (runLabels i availableSlots) day]>
                      schedule;
                  currentDate := date;
                  currentSlotIndex := S i |}
      | None =>
          placeTask fuel' task
            {| schedule := schedule;
               currentDate := date + 1;
               currentSlotIndex := O |}
      end
  end.

(** [sortedTasks.forEach((task) => ...)] *)
Fixpoint forEachTask (fuel : nat) (tasks : list Task) (st : State)
  : option State :=
  match tasks with
  | [] => Some st
  | task :: rest =>
      match placeTask fuel task st with
      | Some st' => forEachTask fuel rest st'
      | None => None
      end
  end.

(** The state before the first task: [schedule = {}], [currentDate] the
    reference date, [currentSlotIndex = 0]. *)
Definition initialState (referenceDate : Z) : State :=
  {| schedule := ∅; currentDate := referenceDate; currentSlotIndex := O |}.

Definition generateScheduleOn (fuel : nat) (referenceDate : Z)
    (tasks : list Task) : option Schedule :=
  schedule <$> forEachTask fuel (sortedTasks tasks) (initialState referenceDate).

(** *** Vocabulary of the placement properties *)

(** Grid position [j] of day [d] lies behind the cursor of [st]. *)
Definition behind (st : State) (d : Z) (j : nat) : Prop :=
  d < currentDate st ∨ (d = currentDate st ∧ (j < currentSlotIndex st)%nat).

(** The cursor of [st2] is at or after the cursor of [st1]. *)
Definition cursorLe (st1 st2 : State) : Prop :=
  currentDate st1 < currentDate st2 ∨
  (currentDate st1 = currentDate st2 ∧
   (currentSlotIndex st1 ≤ currentSlotIndex st2)%nat).

(** The key [(d, label)] is one of the [n] grid positions that start at
    [start] on day [date]. *)
Definition inRun (date : Z) (start n : nat) (d : Z) (label : string) : Prop :=
  d = date ∧ ∃ j : nat, (start ≤ j < start + n)%nat ∧ timeSlots !! j = Some label.

(** [task] holds exactly the keys of one run of [slotsNeeded task]
    consecutive grid positions of day [date], from position [start]. *)
Definition occupiesRun (schedule : Schedule) (task : Task)
    (date : Z) (start : nat) : Prop :=
  1 ≤ slotsNeeded task ∧
  (start + Z.to_nat (slotsNeeded task) ≤ length timeSlots)%nat ∧
  ∀ d label, taskAt schedule d label = Some task ↔
             inRun date start (Z.to_nat (slotsNeeded task)) d label.

(** Grid position [j] exists and is not a key of [day]. *)
Definition free (day : DaySlots) (j : nat) : Prop :=
  ∃ label, timeSlots !! j = Some label ∧ day !! label = None.

(** From [st], [task] has been given the [slotsNeeded task] grid
    positions from [start] on the day of [st'], which were free and are
    not before the cursor of [st]; the cursor of [st'] is just after
    them, and no other key has changed. *)
Definition placedAt (st : State) (task : Task) (st' : State) (start : nat)
  : Prop :=
  1 ≤ slotsNeeded task ∧
  currentSlotIndex st' = (start + Z.to_nat (slotsNeeded task))%nat ∧
  (currentSlotIndex st' ≤ length timeSlots)%nat ∧
  (currentDate st < currentDate st' ∨
   (currentDate st = currentDate st' ∧ (currentSlotIndex st ≤ start)%nat)) ∧
  (∀ d label, inRun (currentDate st') start
                (Z.to_nat (slotsNeeded task)) d label →
              taskAt (schedule st) d label = None ∧
              taskAt (schedule st') d label = Some task) ∧
  (∀ d label, ¬ inRun (currentDate st') start
                  (Z.to_nat (slotsNeeded task)) d label →
              taskAt (schedule st') d label = taskAt (schedule st) d label).

(** The state with which the [while] loop goes round again: the day of
    [st] has its entry, the date is one day on, the cursor is at 0. *)
Definition nextDay (st : State) : State :=
  {| schedule := ensureDay (schedule st) (currentDate st);
     currentDate := currentDate st + 1;
     currentSlotIndex := O |}.

(** Every occupied key is a grid position behind the cursor, and the
    cursor is within the grid. *)
Definition cursorInv (st : State) : Prop :=
  (currentSlotIndex st ≤ length timeSlots)%nat ∧
  ∀ d label, taskAt (schedule st) d label ≠ None →
             ∃ j : nat, timeSlots !! j = Some label ∧ behind st d j.
End Placement.

(** [generateSchedule]: the grid is [generateTimeSlots()] with the default
    hours. *)
Definition generateSchedule (fuel : nat) (referenceDate : Z) (tasks : list Task)
  : option Schedule :=
  generateScheduleOn defaultTimeSlots fuel referenceDate tasks.

(** The [(date, label)] keys of a schedule that hold [task]. *)
Definition taskKeys (schedule : Schedule) (task : Task) : list (Z * string) :=
  '(d, day) ← map_to_list schedule;
  '(label, t) ← map_to_list day;
  if decide (t = task) then [(d, label)] else [].

(** ** Packed days *)

Section Packing.
Variable timeSlots : list string.

(** Seen from the reference date [ref], the days of [st] are packed: the
    current day is taken up to the cursor, on each earlier day the taken
    positions are the first ones of the grid, and no day number from
    [ref] to the current one is without a task at the first position. *)
Definition packedInv (ref : Z) (st : State) : Prop :=
  ref ≤ currentDate st ∧
  (∀ (j : nat) label,
     timeSlots !! j = Some label → (j < currentSlotIndex st)%nat →
     taskAt (schedule st) (currentDate st) label ≠ None) ∧
  (∀ d (j j' : nat) label label',
     d < currentDate st →
     timeSlots !! j = Some label → timeSlots !! j' = Some label' →
     (j' < j)%nat →
     taskAt (schedule st) d label ≠ None →
     taskAt (schedule st) d label' ≠ None) ∧
  (∀ d label, ref ≤ d < currentDate st → timeSlots !! O = Some label →
              taskAt (schedule st) d label ≠ None).
End Packing.

(** ** The task list and the storage of the component *)

(** [Omit<Task, "id">]: the form. *)
Record NewTask := mkNewTask {
  newTitle : string;
  newDuration : Z;
  newImportance : Importance;
  newPriority : Priority;
  newDeadline : Z
}.

(** [{ ...newTask, id: Date.now() }], with [now] for [Date.now()]. *)
Definition withId (now : Z) (newTask : NewTask) : Task :=
  {| id := now;
     title := newTitle newTask;
     duration := newDuration newTask;
     importance := newImportance newTask;
     priority := newPriority newTask;
     deadline := newDeadline newTask |}.

(** The form as the component starts with it and as [addTask] leaves it;
    [today] is the date [new Date().toISOString().split("T")[0]]. *)
Definition blankTask (today : Z) : NewTask :=
  {| newTitle := "";
     newDuration := 30;
     newImportance := Average;
     newPriority := SoftDeadline;
     newDeadline := today |}.

(** [addTask]: the task list after [setTasks((prev) => [...prev,
    taskWithId])] and the form after [setNewTask]. *)
Definition addTask (now today : Z) (newTask : NewTask) (tasks : list Task)
  : list Task * NewTask :=
  (tasks ++ [withId now newTask], blankTask today).

(** [deleteTask]: [prev.filter((task) => task.id !== id)]. *)
Definition deleteTask (i : Z) (tasks : list Task) : list Task :=
  filter (λ task, id task ≠ i) tasks.

(** The items ["tasks"] and ["schedule"] of [localStorage], each as the
    value its JSON text stands for, [None] while the item is not there. *)
Record Storage := mkStorage {
  storedTasks : option (list Task);
  storedSchedule : option Schedule
}.

(** The state of the component that its effects read and write. *)
Record App := mkApp {
  appTasks : list Task;
  appSchedule : Schedule;
  appStorage : Storage
}.

(** The first statement of the effect that runs when [tasks] has
    changed: [tasks.length && localStorage.setItem("tasks", ...)].  With
    an empty list nothing is written. *)
Definition persistTasks (app : App) : App :=
  match appTasks app with
  | [] => app
  | _ :: _ =>
      {| appTasks := appTasks app;
         appSchedule := appSchedule app;
         appStorage := {| storedTasks := Some (appTasks app);
                          storedSchedule := storedSchedule (appStorage app) |} |}
  end.

(** The second statement, [if (tasks.length > 0) { ... }].  [None]: the
    call of [generateSchedule] returns no schedule, and [setSchedule] and
    the second [setItem] are not reached. *)
Definition scheduleTasks (fuel : nat) (now : Z) (app : App) : option App :=
  match appTasks app with
  | [] => Some app
  | _ :: _ =>
      newSchedule ← generateSchedule fuel now (appTasks app);
      Some {| appTasks := appTasks app;
              appSchedule := newSchedule;
              appStorage := {| storedTasks := storedTasks (appStorage app);
                               storedSchedule := Some newSchedule |} |}
  end.

(** The effect: the two statements in turn.  When it gives [None] the
    component is left as [persistTasks] has it. *)
Definition tasksEffect (fuel : nat) (now : Z) (app : App) : option App :=
  scheduleTasks fuel now (persistTasks app).

(** The effect that runs once, when the component is mounted:
    [setTasks(storedTasksString ? JSON.parse(storedTasksString) : [])]. *)
Definition loadTasks (app : App) : App :=
  {| appTasks := default [] (storedTasks (appStorage app));
     appSchedule := appSchedule app;
     appStorage := appStorage app |}.

(** The click on the delete button of the task with id [i]. *)
Definition clickDelete (i : Z) (app : App) : App :=
  {| appTasks := deleteTask i (appTasks app);
     appSchedule := appSchedule app;
     appStorage := appStorage app |}.

(** The storage is in step: without a stored task list there is no
    stored schedule, and a stored task list is not empty and comes with
    the schedule of a run on it. *)
Definition storageOk (storage : Storage) : Prop :=
  match storedTasks storage with
  | None => storedSchedule storage = None
  | Some tasks =>
      tasks ≠ [] ∧
      ∃ sched, storedSchedule storage = Some sched ∧
               ∃ fuel now, generateSchedule fuel now tasks = Some sched
  end.

(** ** Sample inputs *)

Definition taskWrite : Task :=
  mkTask 1 "write report" 30 Average SoftDeadline 1730419200000.

Definition taskCall : Task :=
  mkTask 2 "call client" 60 ImpASAP PrioASAP 1730419200000.

Definition sampleTasks : list Task := [taskWrite; taskCall].

Definition sampleSchedule : Schedule :=
  default ∅ (generateSchedule 2 0 sampleTasks).

(** Ten hours: 20 slots. *)
Definition longTask : Task :=
  mkTask 3 "workshop" 600 High HardDeadline 1730419200000.

(** Two tasks with the same three ranking keys. *)
Definition twinA : Task :=
  mkTask 4 "inbox" 30 Average SoftDeadline 1730419200000.

Definition twinB : Task :=
  mkTask 5 "review" 30 Average SoftDeadline 1730419200000.


(** A task for the form of the component. *)
Definition sampleNewTask : NewTask :=
  mkNewTask "tidy desk" 30 Low NoDeadline 1730419200000.

(** A task that asks for no time. *)
Definition zeroTask : Task :=
  mkTask 6 "nothing" 0 Average SoftDeadline 1730419200000.

(** The component with the sample tasks, before its effect has run. *)
Definition sampleApp : App :=
  {| appTasks := [taskWrite];
     appSchedule := ∅;
     appStorage := {| storedTasks := None; storedSchedule := None |} |}.

(** The component with the report scheduled and stored, and the task
    list then changed to the workshop of ten hours. *)
Definition workshopApp : App :=
  {| appTasks := [longTask];
     appSchedule := default ∅ (generateSchedule 2 0 [taskWrite]);
     appStorage :=
       {| storedTasks := Some [taskWrite];
          storedSchedule := generateSchedule 2 0 [taskWrite] |} |}.

(** * Properties *)

(** ** The slot grid *)

Lemma slotLoop_app (rounds : nat) (hour endHour : Z) (slots : list string) :
  rounds = Z.to_nat (endHour - hour) →
  slotLoop rounds hour endHour slots = slots ++ slotGridSpec hour endHour.
Proof.
  revert hour slots.
  induction rounds as [|rounds IH]; intros hour slots Hr; simpl.
  - unfold slotGridSpec. rewrite seqZ_nil by lia. simpl. by rewrite app_nil_r.
  - destruct (Z.ltb_spec hour endHour) as [Hlt|Hge]; [|lia].
    rewrite IH by lia. unfold slotGridSpec.
    rewrite (seqZ_cons hour) by lia. simpl.
    replace (Z.succ hour) with (hour + 1) by lia.
    replace (Z.pred (endHour - hour)) with (endHour - (hour + 1)) by lia.
    by rewrite <- !app_assoc.
Qed.

(** Once [hour < endHour] fails the loop is over: rounds beyond
    [endHour - startHour] change nothing. *)
Lemma slotLoop_exit (extra : nat) (hour endHour : Z) (slots : list string) :
  slotLoop (Z.to_nat (endHour - hour) + extra) hour endHour slots =
  slotLoop (Z.to_nat (endHour - hour)) hour endHour slots.
Proof.
  remember (Z.to_nat (endHour - hour)) as rounds eqn:Hr.
  revert hour slots Hr.
  induction rounds as [|rounds IH]; intros hour slots Hr; simpl.
  - destruct extra as [|extra]; simpl; [done|].
    destruct (Z.ltb_spec hour endHour); [lia|done].
  - destruct (Z.ltb_spec hour endHour); [|done].
    apply IH. lia.
Qed.

Lemma generateTimeSlots_spec (startHour endHour : Z) :
  generateTimeSlots startHour endHour = slotGridSpec startHour endHour.
Proof. unfold generateTimeSlots. by rewrite slotLoop_app. Qed.





(** C10: when [endHour <= startHour] the grid generator returns the empty
    sequence; no input makes it fail. *)
Theorem generateTimeSlots_inverted (startHour endHour : Z) :
  endHour ≤ startHour → generateTimeSlots startHour endHour = [].
Proof.
  intros Hle. unfold generateTimeSlots.
  replace (Z.to_nat (endHour - startHour)) with O by lia. reflexivity.
Qed.

Lemma generateTimeSlots_inverted_witness :
  9 ≤ 17 ∧ generateTimeSlots 17 9 = [].
Proof. split; [lia | apply (generateTimeSlots_inverted 17 9); lia]. Defined.

(** ** The sort *)

Lemma StronglySorted_weaken {A} (R S : relation A) (l : list A) :
  (∀ a b, R a b → S a b) → StronglySorted R l → StronglySorted S l.
Proof.
  intros HRS. induction 1 as [|x l Hl IH Hx]; constructor; [done|].
  eapply Forall_impl; [exact Hx|]. intros y. apply HRS.
Qed.

Section ArraySort.
Context {A K : Type} `{EqDecision K}.
Variable cmp : A → A → Z.
Variable key : A → K.

Local Abbreviation le := (cmpLe cmp).

Lemma sortInsert_perm (x : A) (l : list A) : sortInsert cmp x l ≡ₚ x :: l.
Proof.
  induction l as [|y l IH]; simpl; [done|].
  destruct (cmp x y <=? 0); [done|].
  rewrite IH. apply Permutation_swap.
Qed.

Lemma arraySort_perm (l : list A) : arraySort cmp l ≡ₚ l.
Proof.
  induction l as [|x l IH]; simpl; [done|].
  rewrite sortInsert_perm. by rewrite IH.
Qed.

Hypothesis le_total : ∀ a b, le a b ∨ le b a.
Hypothesis le_trans : ∀ a b c, le a b → le b c → le a c.

Lemma sortInsert_sorted (x : A) (l : list A) :
  StronglySorted le l → StronglySorted le (sortInsert cmp x l).
Proof.
  induction 1 as [|y l Hl IH Hy]; simpl.
  - repeat constructor.
  - destruct (Z.leb_spec (cmp x y) 0) as [Hxy|Hxy].
    + constructor; [by constructor|].
      constructor; [done|].
      eapply Forall_impl; [exact Hy|]. intros z Hz. by eapply le_trans.
    + constructor; [done|].
      rewrite sortInsert_perm. constructor; [|done].
      destruct (le_total x y) as [H|H]; [unfold cmpLe in H; lia | done].
Qed.

Lemma arraySort_sorted (l : list A) : StronglySorted le (arraySort cmp l).
Proof.
  induction l as [|x l IH]; simpl; [constructor|].
  by apply sortInsert_sorted.
Qed.

(** Elements with equal keys compare as equal. *)
Hypothesis key_tie : ∀ a b, key a = key b → cmp a b ≤ 0.

Lemma sortInsert_filter (k : K) (x : A) (l : list A) :
  filter (λ a, key a = k) (sortInsert cmp x l)
  = filter (λ a, key a = k) (x :: l).
Proof.
  induction l as [|y l IH]; simpl; [done|].
  destruct (Z.leb_spec (cmp x y) 0) as [Hxy|Hxy]; [done|].
  rewrite filter_cons, IH, !filter_cons.
  destruct (decide (key y = k)) as [Hy|Hy];
    destruct (decide (key x = k)) as [Hx|Hx]; try done.
  specialize (key_tie x y). rewrite Hx, Hy in key_tie.
  specialize (key_tie eq_refl). lia.
Qed.

(** Stability: the elements of any one key stand in their input order. *)
Lemma arraySort_stable (k : K) (l : list A) :
  filter (λ a, key a = k) (arraySort cmp l) = filter (λ a, key a = k) l.
Proof.
  induction l as [|x l IH]; simpl; [done|].
  rewrite sortInsert_filter, !filter_cons. by rewrite IH.
Qed.

(** Only elements with equal keys compare as equal. *)
Hypothesis tie_key : ∀ a b, le a b → le b a → key a = key b.

Lemma stable_sorted_unique (l1 l2 : list A) :
  StronglySorted le l1 → StronglySorted le l2 → l1 ≡ₚ l2 →
  (∀ k, filter (λ a, key a = k) l1 = filter (λ a, key a = k) l2) →
  l1 = l2.
Proof.
  revert l2. induction l1 as [|x l1 IH]; intros l2 Hs1 Hs2 Hp Hf.
  - by apply Permutation_nil_l in Hp.
  - destruct l2 as [|y l2]; [by apply Permutation_nil_r in Hp|].
    apply StronglySorted_cons in Hs1 as [Hx Hs1].
    apply StronglySorted_cons in Hs2 as [Hy Hs2].
    rewrite Forall_forall in Hx, Hy.
    assert (x = y) as <-.
    { assert (x ∈ y :: l2) as Hxin by (rewrite <- Hp; left).
      assert (y ∈ x :: l1) as Hyin by (rewrite Hp; left).
      apply elem_of_cons in Hxin as [?|Hxin]; [done|].
      apply elem_of_cons in Hyin as [?|Hyin]; [done|].
      assert (key x = key y) as Hk by (apply tie_key; auto).
      specialize (Hf (key x)). rewrite !filter_cons in Hf.
      rewrite decide_True in Hf by done.
      rewrite decide_True in Hf by done. congruence. }
    f_equal. apply IH; [done|done|by eapply Permutation_cons_inv|].
    intros k. specialize (Hf k). rewrite !filter_cons in Hf.
    destruct (decide (key x = k)); congruence.
Qed.

(** Any stable sort gives the list [arraySort] gives. *)
Lemma arraySort_unique (l l' : list A) :
  StronglySorted le l' → l' ≡ₚ l →
  (∀ k, filter (λ a, key a = k) l' = filter (λ a, key a = k) l) →
  l' = arraySort cmp l.
Proof.
  intros Hs Hp Hf. apply stable_sorted_unique.
  - done.
  - apply arraySort_sorted.
  - by rewrite arraySort_perm.
  - intros k. by rewrite arraySort_stable.
Qed.
End ArraySort.

(** ** The ranking *)

Lemma priorityOrder_inj (p q : Priority) :
  priorityOrder p = priorityOrder q → p = q.
Proof. by destruct p, q. Qed.

Lemma importanceOrder_inj (i j : Importance) :
  importanceOrder i = importanceOrder j → i = j.
Proof. by destruct i, j. Qed.

Lemma compareTasks_lt (a b : Task) :
  compareTasks a b < 0 ↔ lexLt (rankKey a) (rankKey b).
Proof.
  unfold compareTasks, lexLt, rankKey. simpl.
  destruct (Z.eqb_spec (priorityOrder (priority a)) (priorityOrder (priority b)));
    destruct (Z.eqb_spec (importanceOrder (importance a))
                (importanceOrder (importance b))); simpl; lia.
Qed.

Lemma compareTasks_eq (a b : Task) :
  compareTasks a b = 0 ↔ rankKey a = rankKey b.
Proof.
  unfold compareTasks, rankKey.
  destruct (Z.eqb_spec (priorityOrder (priority a)) (priorityOrder (priority b)))
    as [Hp|Hp];
    destruct (Z.eqb_spec (importanceOrder (importance a))
                (importanceOrder (importance b))) as [Hi|Hi]; simpl;
    (split; [intros ? | intros [= ? ? ?]]); try lia.
  rewrite Hp, Hi. f_equal. lia.
Qed.

Lemma compareTasks_le (a b : Task) : compareTasks a b ≤ 0 ↔ rankLe a b.
Proof.
  unfold rankLe, lexLe. rewrite <- compareTasks_lt, <- compareTasks_eq. lia.
Qed.

Lemma compareTasks_total (a b : Task) :
  compareTasks a b ≤ 0 ∨ compareTasks b a ≤ 0.
Proof.
  rewrite !compareTasks_le. unfold rankLe, lexLe, lexLt, rankKey. simpl.
  destruct (Z.lt_total (priorityOrder (priority a)) (priorityOrder (priority b)))
    as [?|[Hp|?]]; [by auto| |by auto].
  destruct (Z.lt_total (importanceOrder (importance a))
              (importanceOrder (importance b))) as [?|[Hi|?]];
    [by auto 6| |by auto 6].
  destruct (Z.lt_total (deadline a) (deadline b)) as [?|[Hd|?]];
    [by auto 8| |by auto 8].
  left. right. by rewrite Hp, Hi, Hd.
Qed.

Lemma compareTasks_trans (a b c : Task) :
  compareTasks a b ≤ 0 → compareTasks b c ≤ 0 → compareTasks a c ≤ 0.
Proof.
  rewrite !compareTasks_le. unfold rankLe, lexLe, lexLt, rankKey. simpl.
  intros [H1|[= H1 H2 H3]] [H4|[= H4 H5 H6]].
  - left. lia.
  - left. lia.
  - left. lia.
  - right. by rewrite H1, H2, H3, H4, H5, H6.
Qed.

Lemma compareTasks_antisym (a b : Task) :
  compareTasks a b ≤ 0 → compareTasks b a ≤ 0 → rankKey a = rankKey b.
Proof.
  rewrite !compareTasks_le. unfold rankLe, lexLe, lexLt.
  intros [H1|H1] [H2|H2]; try done.
  destruct (rankKey a) as [[? ?] ?], (rankKey b) as [[? ?] ?]; simpl in *. lia.
Qed.

Lemma sortedTasks_perm (tasks : list Task) : sortedTasks tasks ≡ₚ tasks.
Proof. apply arraySort_perm. Qed.

Lemma sortedTasks_sorted (tasks : list Task) :
  StronglySorted rankLe (sortedTasks tasks).
Proof.
  eapply StronglySorted_weaken;
    [|apply arraySort_sorted; [apply compareTasks_total|apply compareTasks_trans]].
  intros a b. apply compareTasks_le.
Qed.

(** C1: the scheduler ranks the tasks by a stable sort of the input list
    on the lexicographic order of (priority rank, importance rank,
    deadline), with the priority ranks ASAP 0, hard deadline 1, soft
    deadline 2, no deadline 3 and the importance ranks ASAP 0, high 1,
    average 2, low 3; tasks equal on all three keys keep their input
    order. *)
Theorem sortedTasks_ranking (tasks : list Task) :
  (∀ fuel referenceDate,
     generateSchedule fuel referenceDate tasks
     = schedule <$> forEachTask defaultTimeSlots fuel (sortedTasks tasks)
                      (initialState referenceDate)) ∧
  sortedTasks tasks ≡ₚ tasks ∧
  StronglySorted rankLe (sortedTasks tasks) ∧
  (∀ k, filter (λ t, rankKey t = k) (sortedTasks tasks)
        = filter (λ t, rankKey t = k) tasks) ∧
  (∀ a b, (compareTasks a b < 0 ↔ lexLt (rankKey a) (rankKey b)) ∧
          (compareTasks a b = 0 ↔ rankKey a = rankKey b)) ∧
  priorityOrder <$> [PrioASAP; HardDeadline; SoftDeadline; NoDeadline]
    = [0; 1; 2; 3] ∧
  importanceOrder <$> [ImpASAP; High; Average; Low] = [0; 1; 2; 3].
Proof.
  split; [done|]. split; [apply sortedTasks_perm|].
  split; [apply sortedTasks_sorted|].
  split.
  { intros k. apply arraySort_stable.
    intros a b Hk. apply compareTasks_eq in Hk. lia. }
  split; [|done].
  intros a b. split; [apply compareTasks_lt|apply compareTasks_eq].
Qed.

(** ** The keys of a task *)

Lemma elem_of_taskKeys (s : Schedule) (t : Task) (d : Z) (l : string) :
  (d, l) ∈ taskKeys s t ↔ taskAt s d l = Some t.
Proof.
  unfold taskKeys. rewrite list_elem_of_bind. split.
  - intros ([d' day] & Hin & Hday). apply elem_of_map_to_list in Hday.
    apply list_elem_of_bind in Hin as ([l' t'] & Hin & Hl).
    apply elem_of_map_to_list in Hl.
    case_decide as Ht; [|by apply elem_of_nil in Hin].
    apply list_elem_of_singleton in Hin as [= -> ->]. subst t'.
    unfold taskAt. by rewrite Hday.
  - unfold taskAt. destruct (s !! d) as [day|] eqn:Hday; [|done].
    intros Hl. exists (d, day). split; [|by apply elem_of_map_to_list].
    apply list_elem_of_bind. exists (l, t).
    split; [|by apply elem_of_map_to_list].
    rewrite decide_True by done. by apply list_elem_of_singleton.
Qed.

Lemma NoDup_taskKeys (s : Schedule) (t : Task) : NoDup (taskKeys s t).
Proof.
  unfold taskKeys. apply NoDup_bind; [| |apply NoDup_map_to_list].
  - intros [d1 day1] [d2 day2] [d l] H1 H2 Hy1 Hy2.
    apply elem_of_map_to_list in H1, H2.
    apply list_elem_of_bind in Hy1 as ([l1 t1] & Hy1 & _).
    apply list_elem_of_bind in Hy2 as ([l2 t2] & Hy2 & _).
    destruct (decide (t1 = t)); [|by apply elem_of_nil in Hy1].
    destruct (decide (t2 = t)); [|by apply elem_of_nil in Hy2].
    apply list_elem_of_singleton in Hy1 as [= -> ->].
    apply list_elem_of_singleton in Hy2 as [= -> ->].
    f_equal. congruence.
  - intros [d day] _. apply NoDup_bind; [| |apply NoDup_map_to_list].
    + intros [l1 t1] [l2 t2] [d' l] H1 H2 Hy1 Hy2.
      apply elem_of_map_to_list in H1, H2.
      destruct (decide (t1 = t)); [|by apply elem_of_nil in Hy1].
      destruct (decide (t2 = t)); [|by apply elem_of_nil in Hy2].
      apply list_elem_of_singleton in Hy1 as [= -> ->].
      apply list_elem_of_singleton in Hy2 as [= ->].
      f_equal. congruence.
    + intros [l1 t1] _. case_decide; [apply NoDup_singleton|apply NoDup_nil_2].
Qed.

(** ** The placement loop *)

Section PlacementFacts.
Variable timeSlots : list string.
Hypothesis timeSlots_NoDup : NoDup timeSlots.

Implicit Types (st : State) (task t u : Task) (day : DaySlots)
  (d date : Z) (label l : string) (i j k start n : nat).

Local Arguments Z.eqb : simpl never.
Local Arguments Z.of_nat : simpl never.

(** *** Reading the schedule *)

Lemma taskAt_ensureDay (s : Schedule) date d l :
  taskAt (ensureDay s date) d l = taskAt s d l.
Proof.
  unfold ensureDay, taskAt. destruct (s !! date) eqn:E; [done|].
  destruct (decide (date = d)) as [<-|Hne].
  - rewrite lookup_insert_eq, E. reflexivity.
  - by rewrite lookup_insert_ne.
Qed.

Lemma ensureDay_day (s : Schedule) date l :
  default ∅ (ensureDay s date !! date) !! l = taskAt s date l.
Proof.
  unfold ensureDay, taskAt. destruct (s !! date) eqn:E.
  - by rewrite E.
  - rewrite lookup_insert_eq. reflexivity.
Qed.

Lemma taskAt_insert (s : Schedule) date day d l :
  taskAt (<[date := day]> s) d l
  = if decide (d = date) then day !! l else taskAt s d l.
Proof.
  unfold taskAt. case_decide as Hd.
  - subst. by rewrite lookup_insert_eq.
  - by rewrite lookup_insert_ne.
Qed.

Lemma assignRun_lookup task (labels : list string) day l :
  assignRun task labels day !! l
  = if decide (l ∈ labels) then Some task else day !! l.
Proof.
  revert day. induction labels as [|x labels IH]; intros day.
  - rewrite decide_False; [done|apply not_elem_of_nil].
  - change (assignRun task (x :: labels) day)
      with (assignRun task labels (<[x := task]> day)).
    rewrite IH. destruct (decide (l ∈ labels)) as [Hin|Hnin].
    + rewrite decide_True; [done|by right].
    + destruct (decide (l = x)) as [->|Hne].
      * rewrite lookup_insert_eq. rewrite decide_True; [done|by left].
      * rewrite lookup_insert_ne by done.
        rewrite decide_False; [done|].
        intros [?|?]%elem_of_cons; done.
Qed.

Lemma elem_of_take_drop l start n :
  l ∈ take n (drop start timeSlots) ↔
  ∃ j, (start ≤ j < start + n)%nat ∧ timeSlots !! j = Some l.
Proof.
  rewrite list_elem_of_lookup. split.
  - intros [i Hi]. apply lookup_take_Some in Hi as [Hi Hlt].
    rewrite lookup_drop in Hi. exists (start + i)%nat. split; [lia|done].
  - intros (j & Hj & Hl). exists (j - start)%nat.
    apply lookup_take_Some. rewrite lookup_drop.
    replace (start + (j - start))%nat with j by lia. split; [done|lia].
Qed.

Lemma inRun_elem date start n d l :
  inRun timeSlots date start n d l ↔
  d = date ∧ l ∈ take n (drop start timeSlots).
Proof. unfold inRun. by rewrite elem_of_take_drop. Qed.

Lemma inRun_dec date start n d l :
  inRun timeSlots date start n d l ∨ ¬ inRun timeSlots date start n d l.
Proof.
  rewrite inRun_elem.
  destruct (decide (d = date ∧ l ∈ take n (drop start timeSlots))); auto.
Qed.

(** A label stands at one grid position only. *)
Lemma slot_index_inj i j l :
  timeSlots !! i = Some l → timeSlots !! j = Some l → i = j.
Proof. intros. by eapply NoDup_alt. Qed.

(** *** The scan *)

(** What the scan has found when it stops with a result: a run of
    [needed] free positions that ends at [i], none of them before the
    positions counted when the scan was entered. *)
Lemma scan_found day (needed : Z) (rest : list string) k a i a' :
  drop k timeSlots = rest →
  (a ≤ k)%nat →
  (∀ j, (k - a ≤ j < k)%nat → free timeSlots day j) →
  scan day needed rest k a = Some (i, a') →
  Z.of_nat a' = needed ∧ (1 ≤ a')%nat ∧ (k ≤ i < length timeSlots)%nat ∧
  (a' ≤ i + 1)%nat ∧ (k - a ≤ i + 1 - a')%nat ∧
  ∀ j, (i + 1 - a' ≤ j ≤ i)%nat → free timeSlots day j.
Proof.
  revert k a. induction rest as [|label rest IH]; intros k a Hrest Ha Hfree;
    simpl; [done|].
  assert (timeSlots !! k = Some label) as Hk.
  { rewrite <- (Nat.add_0_r k), <- lookup_drop, Hrest. done. }
  assert (drop (S k) timeSlots = rest) as Hrest'.
  { rewrite (drop_S _ _ _ Hk) in Hrest. congruence. }
  assert (k < length timeSlots)%nat as Hlen by (by eapply lookup_lt_Some).
  destruct (day !! label) as [occupant|] eqn:Hday.
  - intros Hscan. apply IH in Hscan; [|done|lia|intros j ?; lia].
    destruct Hscan as (? & ? & ? & ? & ? & ?). split_and!; try done; lia.
  - destruct (Z.eqb_spec (Z.of_nat (S a)) needed) as [Heq|Hne].
    + intros [= <- <-]. split_and!; try done; try lia.
      intros j Hj. destruct (decide (j = k)) as [->|Hjk].
      * by exists label.
      * apply Hfree. lia.
    + intros Hscan. apply IH in Hscan; [|done|lia|].
      * destruct Hscan as (? & ? & ? & ? & ? & ?).
        split_and!; try done; lia.
      * intros j Hj. destruct (decide (j = k)) as [->|Hjk].
        -- by exists label.
        -- apply Hfree. lia.
Qed.

(** Over a stretch of grid that is free throughout the scan stops as
    soon as it has counted [needed] positions, if the stretch is long
    enough. *)
Lemma scan_free day (needed : Z) (rest : list string) k a :
  (∀ l, l ∈ rest → day !! l = None) →
  scan day needed rest k a
  = if decide (1 ≤ needed - Z.of_nat a ≤ Z.of_nat (length rest))
    then Some ((k + Z.to_nat (needed - Z.of_nat a) - 1)%nat, Z.to_nat needed)
    else None.
Proof.
  revert k a. induction rest as [|label rest IH]; intros k a Hfree; simpl.
  - rewrite decide_False; [done|lia].
  - rewrite (Hfree label) by (by left).
    destruct (Z.eqb_spec (Z.of_nat (S a)) needed) as [Heq|Hne].
    + rewrite decide_True by lia. f_equal. f_equal; lia.
    + rewrite IH by (intros; apply Hfree; by right).
      destruct (decide (1 ≤ needed - Z.of_nat (S a) ≤ Z.of_nat (length rest)))
        as [Hfit|Hfit].
      * rewrite decide_True by lia. f_equal. f_equal. lia.
      * rewrite decide_False; [done|lia].
Qed.

(** *** One task *)

Lemma placeTask_placedAt fuel task st st' :
  placeTask timeSlots fuel task st = Some st' →
  ∃ start, placedAt timeSlots st task st' start.
Proof.
  revert st. induction fuel as [|fuel IH]; intros st; simpl; [done|].
  destruct (scan _ _ _ _ _) as [[i a]|] eqn:Hscan.
  - intros [= <-].
    apply scan_found in Hscan; [|done|lia|intros j ?; lia].
    destruct Hscan as (Hneed & Ha & Hi & Hai & Hstart & Hfree).
    assert (Z.to_nat (slotsNeeded task) = a) as Hn by lia.
    exists (i + 1 - a)%nat. unfold placedAt. simpl. rewrite Hn.
    split; [lia|]. split; [lia|]. split; [lia|]. split; [right; lia|].
    unfold runLabels. split.
    + intros d l Hin. pose proof Hin as [-> (j & Hj & Hl)].
      apply inRun_elem in Hin as [_ Hin].
      rewrite taskAt_insert, decide_True by done.
      rewrite assignRun_lookup, decide_True by done.
      split; [|done].
      destruct (Hfree j) as (l' & Hl' & Hnone); [lia|].
      rewrite ensureDay_day in Hnone. congruence.
    + intros d l Hnin. rewrite taskAt_insert.
      case_decide as Hd; [|apply taskAt_ensureDay].
      subst d. rewrite assignRun_lookup, decide_False.
      * apply ensureDay_day.
      * intros Hin. apply Hnin. by apply inRun_elem.
  - intros Hplace. apply IH in Hplace as [start Hplaced].
    exists start. destruct Hplaced as (H1 & H2 & H3 & H4 & H5 & H6).
    simpl in *. unfold placedAt.
    split; [done|]. split; [done|]. split; [done|]. split; [left; lia|].
    split.
    + intros d l Hin. destruct (H5 d l Hin) as [Hnone Hsome].
      by rewrite taskAt_ensureDay in Hnone.
    + intros d l Hnin. rewrite (H6 d l Hnin). apply taskAt_ensureDay.
Qed.

(** *** The cursor *)

Lemma cursorLe_refl st : cursorLe st st.
Proof. right. done. Qed.

Lemma cursorLe_trans st1 st2 st3 :
  cursorLe st1 st2 → cursorLe st2 st3 → cursorLe st1 st3.
Proof. unfold cursorLe. lia. Qed.

Lemma behind_mono st1 st2 d j :
  cursorLe st1 st2 → behind st1 d j → behind st2 d j.
Proof. unfold cursorLe, behind. lia. Qed.

Lemma placedAt_cursorLe st task st' start :
  placedAt timeSlots st task st' start → cursorLe st st'.
Proof. intros (_ & Hc & _ & Hpos & _). unfold cursorLe. lia. Qed.

(** The positions given to a task are not behind the cursor before the
    placement and are behind the cursor after it. *)
Lemma placedAt_between st task st' start d l j :
  placedAt timeSlots st task st' start →
  inRun timeSlots (currentDate st') start (Z.to_nat (slotsNeeded task)) d l →
  timeSlots !! j = Some l →
  ¬ behind st d j ∧ behind st' d j.
Proof.
  intros (_ & Hc & _ & Hpos & _) [-> (j' & Hj' & Hl')] Hl.
  assert (j' = j) as -> by (by eapply slot_index_inj).
  unfold behind. lia.
Qed.

(** *** The whole list *)

Lemma forEachTask_app fuel (ts1 ts2 : list Task) st :
  forEachTask timeSlots fuel (ts1 ++ ts2) st
  = forEachTask timeSlots fuel ts1 st ≫= forEachTask timeSlots fuel ts2.
Proof.
  revert st. induction ts1 as [|t ts1 IH]; intros st; simpl; [done|].
  destruct (placeTask timeSlots fuel t st) as [st1|]; [apply IH|done].
Qed.

(** What a run over [ts] does to a key: it leaves it as it was, or the
    key was free, is a grid position that the cursor passed during the
    run, and now holds a task of [ts]. *)
Lemma forEachTask_frame fuel (ts : list Task) st st' :
  forEachTask timeSlots fuel ts st = Some st' →
  cursorLe st st' ∧
  ∀ d l,
    taskAt (schedule st') d l = taskAt (schedule st) d l ∨
    (taskAt (schedule st) d l = None ∧
     ∃ u j, u ∈ ts ∧ taskAt (schedule st') d l = Some u ∧
            timeSlots !! j = Some l ∧ ¬ behind st d j ∧ behind st' d j).
Proof.
  revert st. induction ts as [|t ts IH]; intros st; simpl.
  - intros [= <-]. split; [apply cursorLe_refl|]. by left.
  - destruct (placeTask timeSlots fuel t st) as [st1|] eqn:Hplace; [|done].
    intros Hrun. apply placeTask_placedAt in Hplace as [start Hplaced].
    destruct (IH _ Hrun) as [Hle Hkeys].
    pose proof (placedAt_cursorLe _ _ _ _ Hplaced) as Hle1.
    split; [by eapply cursorLe_trans|].
    intros d l.
    pose proof Hplaced as (_ & _ & _ & _ & Hin & Hout).
    destruct (Hkeys d l) as [Hsame|(Hnone & u & j & Hu & Hnow & Hl & Hnb & Hb)].
    + destruct (inRun_dec (currentDate st1) start
                  (Z.to_nat (slotsNeeded t)) d l) as [Hrun1|Hrun1].
      * right. destruct (Hin d l Hrun1) as [Hfree Hset].
        split; [done|].
        pose proof Hrun1 as [_ (j & _ & Hl)].
        destruct (placedAt_between _ _ _ _ _ _ _ Hplaced Hrun1 Hl).
        exists t, j. split_and!; try done.
        -- by left.
        -- congruence.
        -- by eapply behind_mono.
      * left. rewrite Hsame. by apply Hout.
    + right.
      assert (taskAt (schedule st) d l = None) as Hfree.
      { destruct (inRun_dec (currentDate st1) start
                    (Z.to_nat (slotsNeeded t)) d l) as [Hrun1|Hrun1].
        - destruct (Hin d l Hrun1). congruence.
        - rewrite <- (Hout d l Hrun1). done. }
      split; [done|]. exists u, j. split_and!; try done.
      * by right.
      * intros Hbehind. apply Hnb. by eapply behind_mono.
Qed.

(** A key that holds a task keeps it. *)
Lemma forEachTask_keeps fuel (ts : list Task) st st' d l u :
  forEachTask timeSlots fuel ts st = Some st' →
  taskAt (schedule st) d l = Some u →
  taskAt (schedule st') d l = Some u.
Proof.
  intros Hrun Hu. apply forEachTask_frame in Hrun as [_ Hkeys].
  destruct (Hkeys d l) as [->|[? _]]; congruence.
Qed.

(** A key holds a task of the list, or what it held before. *)
Lemma forEachTask_holds fuel (ts : list Task) st st' d l u :
  forEachTask timeSlots fuel ts st = Some st' →
  taskAt (schedule st') d l = Some u →
  u ∈ ts ∨ taskAt (schedule st) d l = Some u.
Proof.
  intros Hrun Hu. apply forEachTask_frame in Hrun as [_ Hkeys].
  destruct (Hkeys d l) as [<-|(_ & u' & _ & ? & ? & _)]; [by right|].
  left. congruence.
Qed.

(** A position behind the cursor is as the run found it. *)
Lemma forEachTask_behind fuel (ts : list Task) st st' d l j :
  forEachTask timeSlots fuel ts st = Some st' →
  timeSlots !! j = Some l → behind st d j →
  taskAt (schedule st') d l = taskAt (schedule st) d l.
Proof.
  intros Hrun Hl Hb. apply forEachTask_frame in Hrun as [_ Hkeys].
  destruct (Hkeys d l) as [->|(_ & u & j' & _ & _ & Hl' & Hnb & _)]; [done|].
  assert (j' = j) as -> by (by eapply slot_index_inj). done.
Qed.

(** The three stages of a run around one task of the list. *)
Lemma forEachTask_split fuel (pre post : list Task) t st st' :
  forEachTask timeSlots fuel (pre ++ t :: post) st = Some st' →
  ∃ st1 st2 start,
    forEachTask timeSlots fuel pre st = Some st1 ∧
    placedAt timeSlots st1 t st2 start ∧
    forEachTask timeSlots fuel post st2 = Some st'.
Proof.
  rewrite forEachTask_app.
  destruct (forEachTask timeSlots fuel pre st) as [st1|]; [|done]. simpl.
  destruct (placeTask timeSlots fuel t st1) as [st2|] eqn:Hplace; [|done].
  intros Hpost. apply placeTask_placedAt in Hplace as [start Hplaced].
  by exists st1, st2, start.
Qed.

(** After the run each task of a duplicate-free list holds exactly the
    keys of the run of positions it was given. *)
Lemma forEachTask_occupies fuel (pre post : list Task) t st st1 st2 st' start :
  NoDup (pre ++ t :: post) →
  (∀ d l, taskAt (schedule st) d l ≠ Some t) →
  forEachTask timeSlots fuel pre st = Some st1 →
  placedAt timeSlots st1 t st2 start →
  forEachTask timeSlots fuel post st2 = Some st' →
  occupiesRun timeSlots (schedule st') t (currentDate st2) start.
Proof.
  intros Hnd Hfresh Hpre Hplaced Hpost.
  apply NoDup_app in Hnd as (_ & Hpre_t & [Hpost_t _]%NoDup_cons).
  assert (t ∉ pre) as Hnpre.
  { intros Hin. eapply Hpre_t; [done|by left]. }
  pose proof Hplaced as (Hn & Hc & Hlen & _ & Hin & Hout).
  split; [done|]. split; [lia|].
  intros d l. split.
  - intros Hat.
    destruct (forEachTask_holds _ _ _ _ _ _ _ Hpost Hat) as [?|Hat2]; [done|].
    destruct (inRun_dec (currentDate st2) start
                (Z.to_nat (slotsNeeded t)) d l) as [?|Hnrun]; [done|].
    rewrite (Hout d l Hnrun) in Hat2.
    destruct (forEachTask_holds _ _ _ _ _ _ _ Hpre Hat2) as [?|?]; [done|].
    by destruct (Hfresh d l).
  - intros Hrun. eapply forEachTask_keeps; [done|]. by apply Hin.
Qed.

(** *** Termination *)

(** More rounds do not change the result of a placement. *)
Lemma placeTask_fuel_mono fuel extra task st st' :
  placeTask timeSlots fuel task st = Some st' →
  placeTask timeSlots (fuel + extra) task st = Some st'.
Proof.
  revert st. induction fuel as [|fuel IH]; intros st; simpl; [done|].
  destruct (scan _ _ _ _ _) as [[i a]|]; [done|]. apply IH.
Qed.

Lemma forEachTask_fuel_mono fuel extra (ts : list Task) st st' :
  forEachTask timeSlots fuel ts st = Some st' →
  forEachTask timeSlots (fuel + extra) ts st = Some st'.
Proof.
  revert st. induction ts as [|t ts IH]; intros st; simpl; [done|].
  destruct (placeTask timeSlots fuel t st) as [st1|] eqn:Hplace; [|done].
  rewrite (placeTask_fuel_mono _ extra _ _ _ Hplace). apply IH.
Qed.

Lemma cursorInv_initial (referenceDate : Z) :
  cursorInv timeSlots (initialState referenceDate).
Proof. split; [simpl; lia|]. intros d l. by unfold taskAt. Qed.

Lemma cursorInv_free_here st l :
  cursorInv timeSlots st → l ∈ drop (currentSlotIndex st) timeSlots →
  taskAt (schedule st) (currentDate st) l = None.
Proof.
  intros [_ Hocc] [i Hi]%list_elem_of_lookup. rewrite lookup_drop in Hi.
  destruct (taskAt (schedule st) (currentDate st) l) eqn:Hat; [|done].
  destruct (Hocc (currentDate st) l) as (j & Hj & Hb); [by rewrite Hat|].
  assert (j = (currentSlotIndex st + i)%nat) by (by eapply slot_index_inj).
  unfold behind in Hb. lia.
Qed.

Lemma cursorInv_nextDay st : cursorInv timeSlots st → cursorInv timeSlots (nextDay st).
Proof.
  intros [_ Hocc]. split; [simpl; lia|].
  intros d l. simpl. rewrite taskAt_ensureDay. intros Hat.
  destruct (Hocc d l Hat) as (j & Hj & Hb). exists j. split; [done|].
  unfold behind in *. simpl. lia.
Qed.

Lemma placedAt_cursorInv st task st' start :
  placedAt timeSlots st task st' start →
  cursorInv timeSlots st → cursorInv timeSlots st'.
Proof.
  intros Hplaced [_ Hocc].
  pose proof (placedAt_cursorLe _ _ _ _ Hplaced) as Hle.
  pose proof Hplaced as (_ & _ & Hlen & _ & _ & Hout).
  split; [done|]. intros d l Hat.
  destruct (inRun_dec (currentDate st') start
              (Z.to_nat (slotsNeeded task)) d l) as [Hrun|Hnrun].
  - pose proof Hrun as [_ (j & _ & Hl)]. exists j. split; [done|].
    by destruct (placedAt_between _ _ _ _ _ _ _ Hplaced Hrun Hl).
  - rewrite (Hout d l Hnrun) in Hat.
    destruct (Hocc d l Hat) as (j & Hj & Hb). exists j.
    split; [done|]. by eapply behind_mono.
Qed.

(** With the invariant the grid of the current day is free from the
    cursor on, so the task goes to the cursor when it fits there ... *)
Lemma placeTask_here fuel task st :
  cursorInv timeSlots st →
  1 ≤ slotsNeeded task →
  (currentSlotIndex st + Z.to_nat (slotsNeeded task) ≤ length timeSlots)%nat →
  ∃ st', placeTask timeSlots (S fuel) task st = Some st' ∧
         placedAt timeSlots st task st' (currentSlotIndex st) ∧
         currentDate st' = currentDate st.
Proof.
  intros Hinv Hn Hfit.
  destruct (placeTask timeSlots (S fuel) task st) as [st'|] eqn:Hplace.
  - exists st'. split; [done|].
    pose proof Hplace as [start Hplaced]%placeTask_placedAt.
    revert Hplace. simpl. rewrite scan_free; last first.
    { intros l Hl. rewrite ensureDay_day. by apply cursorInv_free_here. }
    rewrite decide_True by (rewrite length_drop; lia).
    intros [= <-].
    pose proof Hplaced as (_ & Hc & _). simpl in Hc.
    assert (start = currentSlotIndex st) as -> by lia.
    split; [exact Hplaced|done].
  - exfalso. revert Hplace. simpl. rewrite scan_free; last first.
    { intros l Hl. rewrite ensureDay_day. by apply cursorInv_free_here. }
    rewrite decide_True by (rewrite length_drop; lia). done.
Qed.

(** ... and the loop goes round with the next day when it does not. *)
Lemma placeTask_next fuel task st :
  cursorInv timeSlots st →
  ¬ (1 ≤ slotsNeeded task ∧
     (currentSlotIndex st + Z.to_nat (slotsNeeded task) ≤ length timeSlots)%nat) →
  placeTask timeSlots (S fuel) task st
  = placeTask timeSlots fuel task (nextDay st).
Proof.
  intros Hinv Hnfit. simpl. rewrite scan_free; last first.
  { intros l Hl. rewrite ensureDay_day. by apply cursorInv_free_here. }
  rewrite decide_False; [done|]. rewrite length_drop.
  pose proof Hinv as [Hlen _]. lia.
Qed.

(** Two rounds place any task that fits in a day: at the cursor, or at
    the start of the next day. *)
Lemma placeTask_total fuel task st :
  cursorInv timeSlots st →
  1 ≤ slotsNeeded task ≤ Z.of_nat (length timeSlots) →
  ∃ st' start,
    placeTask timeSlots (S (S fuel)) task st = Some st' ∧
    placedAt timeSlots st task st' start ∧
    (((currentSlotIndex st + Z.to_nat (slotsNeeded task) ≤ length timeSlots)%nat
      ∧ currentDate st' = currentDate st ∧ start = currentSlotIndex st) ∨
     ((length timeSlots < currentSlotIndex st + Z.to_nat (slotsNeeded task))%nat
      ∧ currentDate st' = currentDate st + 1 ∧ start = O)).
Proof.
  intros Hinv Hn.
  destruct (decide (currentSlotIndex st + Z.to_nat (slotsNeeded task)
                    ≤ length timeSlots)%nat) as [Hfit|Hnfit].
  - destruct (placeTask_here (S fuel) task st) as (st' & Hplace & Hplaced & Hd);
      [done|lia|done|].
    exists st', (currentSlotIndex st). split_and!; [done|done|]. by left.
  - rewrite placeTask_next by (done || lia).
    destruct (placeTask_here fuel task (nextDay st))
      as (st' & Hplace & Hplaced & Hd);
      [by apply cursorInv_nextDay|lia|simpl; lia|].
    exists st', O. split; [done|]. simpl in *. split.
    + pose proof Hplaced as (H1 & H2 & H3 & H4 & H5 & H6).
      split_and!; try done.
      * left. rewrite Hd. lia.
      * intros d l Hin. destruct (H5 d l Hin) as [Hnone Hsome].
        simpl in Hnone. by rewrite taskAt_ensureDay in Hnone.
      * intros d l Hnin. rewrite (H6 d l Hnin). simpl.
        apply taskAt_ensureDay.
    + right. split_and!; [lia|done|done].
Qed.

Lemma forEachTask_cursorInv fuel (ts : list Task) st st' :
  forEachTask timeSlots fuel ts st = Some st' →
  cursorInv timeSlots st → cursorInv timeSlots st'.
Proof.
  revert st. induction ts as [|t ts IH]; intros st; simpl.
  - by intros [= <-].
  - destruct (placeTask timeSlots fuel t st) as [st1|] eqn:Hplace; [|done].
    intros Hrun Hinv. apply (IH _ Hrun).
    apply placeTask_placedAt in Hplace as [start Hplaced].
    by eapply placedAt_cursorInv.
Qed.


(** *** Tasks no day can hold *)

Lemma placeTask_needs fuel task st st' :
  placeTask timeSlots fuel task st = Some st' →
  1 ≤ slotsNeeded task ≤ Z.of_nat (length timeSlots).
Proof.
  intros [start (? & ? & ? & _)]%placeTask_placedAt. lia.
Qed.

Lemma forEachTask_needs fuel (ts : list Task) st st' t :
  forEachTask timeSlots fuel ts st = Some st' → t ∈ ts →
  1 ≤ slotsNeeded t ≤ Z.of_nat (length timeSlots).
Proof.
  intros Hrun [pre [post ->]]%list_elem_of_split.
  apply forEachTask_split in Hrun as (st1 & st2 & start & _ & Hplaced & _).
  destruct Hplaced as (? & ? & ? & _). lia.
Qed.

(** *** Runs of positions *)

Lemma occupiesRun_count (s : Schedule) t date start :
  occupiesRun timeSlots s t date start →
  length (taskKeys s t) = Z.to_nat (slotsNeeded t).
Proof.
  intros (Hn & Hlen & Hkeys).
  assert (taskKeys s t
          ≡ₚ (λ l, (date, l)) <$>
               take (Z.to_nat (slotsNeeded t)) (drop start timeSlots)) as ->.
  { apply NoDup_Permutation.
    - apply NoDup_taskKeys.
    - apply NoDup_fmap_2; [by intros ?? [= ?]|].
      eapply sublist_NoDup; [|apply sublist_take].
      eapply sublist_NoDup; [done|apply sublist_drop].
    - intros [d l]. rewrite elem_of_taskKeys, Hkeys, inRun_elem.
      rewrite list_elem_of_fmap. split.
      + intros [-> Hl]. by exists l.
      + by intros (l' & [= -> ->] & Hl'). }
  rewrite length_fmap, length_take, length_drop. lia.
Qed.


(** *** Tasks of one slot *)

End PlacementFacts.

(** ** The default grid *)

Lemma defaultTimeSlots_NoDup : NoDup defaultTimeSlots.
Proof. apply (bool_decide_unpack _). by vm_compute. Qed.

Lemma defaultTimeSlots_length : length defaultTimeSlots = 16%nat.
Proof. reflexivity. Qed.

Lemma slotsNeeded_positive (t : Task) : 1 ≤ duration t ↔ 1 ≤ slotsNeeded t.
Proof.
  unfold slotsNeeded, ceilDiv.
  pose proof (Z.div_mod (- duration t) 30).
  pose proof (Z.mod_pos_bound (- duration t) 30). lia.
Qed.

Lemma generateSchedule_run (fuel : nat) (referenceDate : Z) (tasks : list Task)
    (sched : Schedule) :
  generateSchedule fuel referenceDate tasks = Some sched →
  ∃ st, forEachTask defaultTimeSlots fuel (sortedTasks tasks)
          (initialState referenceDate) = Some st ∧ schedule st = sched.
Proof.
  unfold generateSchedule, generateScheduleOn.
  destruct (forEachTask _ _ _ _) as [st|]; [|done].
  intros [= <-]. by exists st.
Qed.

(** The result does not depend on the rounds left over. *)
Lemma generateSchedule_fuel_mono (fuel extra : nat) (referenceDate : Z)
    (tasks : list Task) (sched : Schedule) :
  generateSchedule fuel referenceDate tasks = Some sched →
  generateSchedule (fuel + extra) referenceDate tasks = Some sched.
Proof.
  intros [st [Hrun <-]]%generateSchedule_run.
  unfold generateSchedule, generateScheduleOn.
  by rewrite (forEachTask_fuel_mono _ _ extra _ _ _ Hrun).
Qed.

Lemma taskAt_initial (referenceDate d : Z) (l : string) :
  taskAt (schedule (initialState referenceDate)) d l = None.
Proof. done. Qed.

Lemma generateSchedule_occupies (fuel : nat) (referenceDate : Z)
    (tasks : list Task) (sched : Schedule) (t : Task) :
  NoDup tasks →
  generateSchedule fuel referenceDate tasks = Some sched →
  t ∈ tasks →
  ∃ date start, occupiesRun defaultTimeSlots sched t date start.
Proof.
  intros Hnd [st [Hrun <-]]%generateSchedule_run Ht.
  rewrite <- (sortedTasks_perm tasks) in Hnd, Ht.
  apply list_elem_of_split in Ht as (pre & post & Hsplit).
  rewrite Hsplit in Hrun, Hnd.
  apply forEachTask_split in Hrun
    as (st1 & st2 & start & Hpre & Hplaced & Hpost).
  exists (currentDate st2), start.
  eapply (forEachTask_occupies _ defaultTimeSlots_NoDup _ pre post t
            (initialState referenceDate)); done.
Qed.

Lemma ceilDiv_30 (a n : Z) : ceilDiv a 30 = n ↔ 30 * (n - 1) < a ≤ 30 * n.
Proof.
  unfold ceilDiv.
  pose proof (Z.div_mod (- a) 30). pose proof (Z.mod_pos_bound (- a) 30).
  lia.
Qed.

(** C2: every task the scheduler has placed holds exactly
    ceil(duration/30) slot keys, that is [n] keys with
    [30 (n - 1) < duration <= 30 n]; they are consecutive positions of
    the grid, all on one date, and each of them maps to that task. *)
Theorem placed_task_contiguous (fuel : nat) (referenceDate : Z)
    (tasks : list Task) (sched : Schedule) (t : Task) :
  NoDup tasks →
  generateSchedule fuel referenceDate tasks = Some sched →
  t ∈ tasks →
  ∃ (date : Z) (start n : nat),
    length (taskKeys sched t) = n ∧
    30 * (Z.of_nat n - 1) < duration t ≤ 30 * Z.of_nat n ∧
    (1 ≤ n)%nat ∧
    (start + n ≤ length defaultTimeSlots)%nat ∧
    ∀ d label,
      taskAt sched d label = Some t ↔
      d = date ∧
      ∃ j : nat, (start ≤ j < start + n)%nat ∧
                 defaultTimeSlots !! j = Some label.
Proof.
  intros Hnd Hgen Ht.
  destruct (generateSchedule_occupies _ _ _ _ _ Hnd Hgen Ht)
    as (date & start & Hocc).
  pose proof (occupiesRun_count _ defaultTimeSlots_NoDup _ _ _ _ Hocc)
    as Hcount.
  destruct Hocc as (Hpos & Hlen & Hkeys).
  exists date, start, (Z.to_nat (slotsNeeded t)).
  split; [done|]. split.
  { apply ceilDiv_30. unfold slotsNeeded in *. lia. }
  split; [lia|]. split; [done|]. exact Hkeys.
Qed.


(** C4: a key that has been given a task keeps that task through the
    placement of every later task, and each key of the returned schedule
    records one task at most. *)
Theorem no_double_booking (fuel : nat) (referenceDate : Z) (tasks : list Task)
    (sched : Schedule) :
  generateSchedule fuel referenceDate tasks = Some sched →
  (∀ earlier later, sortedTasks tasks = earlier ++ later →
     ∃ st, forEachTask defaultTimeSlots fuel earlier
             (initialState referenceDate) = Some st ∧
           ∀ d label u, taskAt (schedule st) d label = Some u →
                        taskAt sched d label = Some u) ∧
  (∀ d label u v, taskAt sched d label = Some u →
                  taskAt sched d label = Some v → u = v).
Proof.
  intros [st' [Hrun <-]]%generateSchedule_run. split; [|congruence].
  intros earlier later Hsplit. rewrite Hsplit, forEachTask_app in Hrun.
  destruct (forEachTask defaultTimeSlots fuel earlier _) as [st|]; [|done].
  exists st. split; [done|]. intros d label u.
  by eapply (forEachTask_keeps _ defaultTimeSlots_NoDup).
Qed.

(** C5: of two tasks placed on the same date the one later in the ranking
    starts after the last slot of the earlier one; and a position the
    cursor has passed is not assigned again in the run. *)
Theorem cursor_monotonic (fuel : nat) (referenceDate : Z) (tasks : list Task)
    (sched : Schedule) :
  generateSchedule fuel referenceDate tasks = Some sched →
  (NoDup tasks →
   ∀ (i1 i2 : nat) t1 t2 date (j1 j2 : nat) l1 l2,
     (i1 < i2)%nat →
     sortedTasks tasks !! i1 = Some t1 → sortedTasks tasks !! i2 = Some t2 →
     defaultTimeSlots !! j1 = Some l1 → defaultTimeSlots !! j2 = Some l2 →
     taskAt sched date l1 = Some t1 → taskAt sched date l2 = Some t2 →
     (j1 + 1 ≤ j2)%nat) ∧
  (∀ earlier later, sortedTasks tasks = earlier ++ later →
     ∃ st, forEachTask defaultTimeSlots fuel earlier
             (initialState referenceDate) = Some st ∧
           ∀ d (j : nat) label,
             defaultTimeSlots !! j = Some label →
             behind st d j →
             taskAt sched d label = taskAt (schedule st) d label).
Proof.
  intros [st' [Hrun <-]]%generateSchedule_run. split.
  - intros Hnd i1 i2 t1 t2 date j1 j2 l1 l2 Hlt Hi1 Hi2 Hj1 Hj2 Hat1 Hat2.
    rewrite <- (sortedTasks_perm tasks) in Hnd.
    rewrite <- (take_drop i2 (sortedTasks tasks)) in Hrun, Hnd.
    assert (t1 ∈ take i2 (sortedTasks tasks)) as Hin1.
    { apply list_elem_of_lookup. exists i1. by apply lookup_take_Some. }
    assert (t2 ∈ drop i2 (sortedTasks tasks)) as Hin2.
    { apply list_elem_of_lookup. exists O.
      by rewrite lookup_drop, Nat.add_0_r. }
    apply NoDup_app in Hnd as (_ & Hdisj & _).
    rewrite forEachTask_app in Hrun.
    destruct (forEachTask defaultTimeSlots fuel (take i2 _) _)
      as [st|] eqn:Hpre; [|done].
    simpl in Hrun.
    (* the earlier task got its key before the cursor reached [st] *)
    assert (behind st date j1) as Hb1.
    { destruct (forEachTask_holds _ defaultTimeSlots_NoDup _ _ _ _ _ _ _
                  Hrun Hat1) as [Hin|Hst].
      { by destruct (Hdisj t1). }
      destruct (forEachTask_frame _ defaultTimeSlots_NoDup _ _ _ _ Hpre)
        as [_ Hkeys].
      destruct (Hkeys date l1)
        as [Hsame|(_ & u & j & _ & _ & Hl & _ & Hb)].
      - rewrite Hst, taskAt_initial in Hsame. done.
      - by rewrite (slot_index_inj _ defaultTimeSlots_NoDup _ _ _ Hj1 Hl). }
    (* the later task got its key from the cursor of [st] on *)
    assert (¬ behind st date j2) as Hb2.
    { destruct (forEachTask_frame _ defaultTimeSlots_NoDup _ _ _ _ Hrun)
        as [_ Hkeys].
      destruct (Hkeys date l2)
        as [Hsame|(_ & u & j & _ & _ & Hl & Hnb & _)].
      - rewrite Hat2 in Hsame. symmetry in Hsame.
        destruct (forEachTask_holds _ defaultTimeSlots_NoDup _ _ _ _ _ _ _
                    Hpre Hsame) as [Hin|Hinit].
        + by destruct (Hdisj t2).
        + by rewrite taskAt_initial in Hinit.
      - by rewrite (slot_index_inj _ defaultTimeSlots_NoDup _ _ _ Hj2 Hl). }
    unfold behind in Hb1, Hb2. lia.
  - intros earlier later Hsplit. rewrite Hsplit, forEachTask_app in Hrun.
    destruct (forEachTask defaultTimeSlots fuel earlier _) as [st|]; [|done].
    exists st. split; [done|]. intros d j label Hj Hb.
    by eapply (forEachTask_behind _ defaultTimeSlots_NoDup).
Qed.

(** C6 (as the code has it): a task that needs more slots than a day has
    is never placed: whatever the number of rounds of the loop, the call
    returns no schedule. *)
Theorem oversized_task_never_placed (fuel : nat) (referenceDate : Z)
    (tasks : list Task) (t : Task) :
  t ∈ tasks → 16 < slotsNeeded t →
  generateSchedule fuel referenceDate tasks = None.
Proof.
  intros Ht Hbig.
  destruct (generateSchedule fuel referenceDate tasks) as [sched|] eqn:Hgen;
    [|done].
  apply generateSchedule_run in Hgen as [st [Hrun _]].
  rewrite <- (sortedTasks_perm tasks) in Ht.
  pose proof (forEachTask_needs _ _ _ _ _ _ Hrun Ht) as Hneeds.
  rewrite defaultTimeSlots_length in Hneeds. lia.
Qed.



(** C8 (as the code has it): two task lists that are permutations of
    each other, and in which no two different tasks agree on all three
    ranking keys, get the same schedule. *)
Theorem schedule_of_permutation (fuel : nat) (referenceDate : Z)
    (tasks1 tasks2 : list Task) :
  tasks1 ≡ₚ tasks2 →
  (∀ a b, a ∈ tasks1 → b ∈ tasks1 → rankKey a = rankKey b → a = b) →
  generateSchedule fuel referenceDate tasks1
  = generateSchedule fuel referenceDate tasks2.
Proof.
  intros Hperm Hkeys. unfold generateSchedule, generateScheduleOn.
  assert (sortedTasks tasks1 = sortedTasks tasks2) as ->; [|done].
  apply (StronglySorted_unique_strong rankLe).
  - intros a b Ha Hb Hab Hba. rewrite sortedTasks_perm in Ha, Hb.
    rewrite <- Hperm in Hb. apply Hkeys; [done|done|].
    apply compareTasks_antisym; by apply compareTasks_le.
  - apply sortedTasks_sorted.
  - apply sortedTasks_sorted.
  - by rewrite !sortedTasks_perm.
Qed.

(** ** The properties on the sample inputs *)

Lemma sampleTasks_NoDup : NoDup sampleTasks.
Proof. apply (bool_decide_unpack _). vm_compute. exact I. Defined.

Lemma sampleSchedule_eq : generateSchedule 2 0 sampleTasks = Some sampleSchedule.
Proof. vm_compute. reflexivity. Defined.

(** The call of one hour, first in the ranking, has the first two slots;
    the report of half an hour follows it. *)
Example sampleSchedule_slots :
  sortedTasks sampleTasks = [taskCall; taskWrite] ∧
  taskAt sampleSchedule 0 "9:00" = Some taskCall ∧
  taskAt sampleSchedule 0 "9:30" = Some taskCall ∧
  taskAt sampleSchedule 0 "10:00" = Some taskWrite ∧
  taskAt sampleSchedule 0 "10:30" = None ∧
  taskAt sampleSchedule 1 "9:00" = None.
Proof. split_and!; by vm_compute. Qed.

Lemma placed_task_contiguous_witness :
  NoDup sampleTasks ∧
  generateSchedule 2 0 sampleTasks = Some sampleSchedule ∧
  taskCall ∈ sampleTasks ∧
  duration taskCall = 60 ∧
  length (taskKeys sampleSchedule taskCall) = 2%nat ∧
  ∃ (date : Z) (start n : nat),
    length (taskKeys sampleSchedule taskCall) = n ∧
    30 * (Z.of_nat n - 1) < duration taskCall ≤ 30 * Z.of_nat n ∧
    (1 ≤ n)%nat ∧
    (start + n ≤ length defaultTimeSlots)%nat ∧
    ∀ d label,
      taskAt sampleSchedule d label = Some taskCall ↔
      d = date ∧
      ∃ j : nat, (start ≤ j < start + n)%nat ∧
                 defaultTimeSlots !! j = Some label.
Proof.
  assert (taskCall ∈ sampleTasks) as Hin by (right; left).
  split; [exact sampleTasks_NoDup|]. split; [exact sampleSchedule_eq|].
  split; [exact Hin|]. split; [reflexivity|].
  split; [vm_compute; reflexivity|].
  exact (placed_task_contiguous 2 0 sampleTasks sampleSchedule taskCall
           sampleTasks_NoDup sampleSchedule_eq Hin).
Defined.



Lemma no_double_booking_witness :
  generateSchedule 2 0 sampleTasks = Some sampleSchedule ∧
  (∀ earlier later, sortedTasks sampleTasks = earlier ++ later →
     ∃ st, forEachTask defaultTimeSlots 2 earlier (initialState 0) = Some st ∧
           ∀ d label u, taskAt (schedule st) d label = Some u →
                        taskAt sampleSchedule d label = Some u) ∧
  (∀ d label u v, taskAt sampleSchedule d label = Some u →
                  taskAt sampleSchedule d label = Some v → u = v).
Proof.
  split; [exact sampleSchedule_eq|].
  exact (no_double_booking 2 0 sampleTasks sampleSchedule sampleSchedule_eq).
Defined.

Lemma cursor_monotonic_witness :
  generateSchedule 2 0 sampleTasks = Some sampleSchedule ∧
  NoDup sampleTasks ∧
  (∀ (i1 i2 : nat) t1 t2 date (j1 j2 : nat) l1 l2,
     (i1 < i2)%nat →
     sortedTasks sampleTasks !! i1 = Some t1 →
     sortedTasks sampleTasks !! i2 = Some t2 →
     defaultTimeSlots !! j1 = Some l1 → defaultTimeSlots !! j2 = Some l2 →
     taskAt sampleSchedule date l1 = Some t1 →
     taskAt sampleSchedule date l2 = Some t2 →
     (j1 + 1 ≤ j2)%nat) ∧
  (∀ earlier later, sortedTasks sampleTasks = earlier ++ later →
     ∃ st, forEachTask defaultTimeSlots 2 earlier (initialState 0) = Some st ∧
           ∀ d (j : nat) label,
             defaultTimeSlots !! j = Some label →
             behind st d j →
             taskAt sampleSchedule d label = taskAt (schedule st) d label).
Proof.
  split; [exact sampleSchedule_eq|]. split; [exact sampleTasks_NoDup|].
  split.
  - exact (proj1 (cursor_monotonic 2 0 sampleTasks sampleSchedule
                    sampleSchedule_eq) sampleTasks_NoDup).
  - exact (proj2 (cursor_monotonic 2 0 sampleTasks sampleSchedule
                    sampleSchedule_eq)).
Defined.

(** The loop over a task of ten hours: whatever the number of rounds, no
    schedule is returned. *)
Lemma oversized_task_no_result :
  slotsNeeded longTask = 20 ∧
  ¬ ∃ fuel sched, generateSchedule fuel 0 [longTask] = Some sched.
Proof.
  split; [reflexivity|]. intros (fuel & sched & Hgen).
  apply generateSchedule_run in Hgen as [st [Hrun _]].
  assert (longTask ∈ sortedTasks [longTask]) as Hin by (by left).
  pose proof (forEachTask_needs _ _ _ _ _ _ Hrun Hin) as Hneeds.
  vm_compute in Hneeds. destruct Hneeds as [_ Hle]. by apply Hle.
Qed.

Lemma oversized_task_never_placed_witness :
  longTask ∈ [taskWrite; longTask] ∧ 16 < slotsNeeded longTask ∧
  generateSchedule 365 0 [taskWrite; longTask] = None.
Proof.
  assert (longTask ∈ [taskWrite; longTask]) as Hin by (right; left).
  assert (16 < slotsNeeded longTask) as Hbig by reflexivity.
  split; [exact Hin|]. split; [exact Hbig|].
  exact (oversized_task_never_placed 365 0 [taskWrite; longTask] longTask
           Hin Hbig).
Defined.




(** Two tasks with the same keys: the schedule follows the input order. *)
Lemma twin_tasks_input_order :
  [twinA; twinB] ≡ₚ [twinB; twinA] ∧
  generateSchedule 2 0 [twinA; twinB] ≠ generateSchedule 2 0 [twinB; twinA].
Proof.
  split; [apply Permutation_swap|]. intros Heq.
  apply (f_equal (λ r, r ≫= λ sched, taskAt sched 0 "9:00")) in Heq.
  vm_compute in Heq. discriminate Heq.
Qed.

Lemma sampleTasks_keys :
  ∀ a b, a ∈ sampleTasks → b ∈ sampleTasks → rankKey a = rankKey b → a = b.
Proof.
  intros a b Ha Hb.
  apply elem_of_cons in Ha as [->|Ha];
    [|apply elem_of_cons in Ha as [->|Ha]; [|by apply elem_of_nil in Ha]];
    (apply elem_of_cons in Hb as [->|Hb];
     [|apply elem_of_cons in Hb as [->|Hb]; [|by apply elem_of_nil in Hb]]);
    done.
Defined.

Lemma schedule_of_permutation_witness :
  sampleTasks ≡ₚ reverse sampleTasks ∧
  (∀ a b, a ∈ sampleTasks → b ∈ sampleTasks → rankKey a = rankKey b → a = b) ∧
  generateSchedule 2 0 sampleTasks = generateSchedule 2 0 (reverse sampleTasks).
Proof.
  assert (sampleTasks ≡ₚ reverse sampleTasks) as Hperm
    by apply Permutation_swap.
  split; [exact Hperm|]. split; [exact sampleTasks_keys|].
  exact (schedule_of_permutation 2 0 sampleTasks (reverse sampleTasks)
           Hperm sampleTasks_keys).
Defined.

(** * Further properties *)

(** ** The labels of the grid *)

Lemma string_length_app (s1 s2 : string) :
  String.length (s1 +:+ s2) = (String.length s1 + String.length s2)%nat.
Proof. induction s1 as [|a s1 IH]; simpl; [done|]. by rewrite IH. Qed.

Lemma string_app_inj_r (s1 s2 t1 t2 : string) :
  String.length t1 = String.length t2 →
  s1 +:+ t1 = s2 +:+ t2 → s1 = s2 ∧ t1 = t2.
Proof.
  intros Hlen. revert s2.
  induction s1 as [|a s1 IH]; intros [|b s2] Heq.
  - split; [done|exact Heq].
  - apply (f_equal String.length) in Heq.
    rewrite !string_length_app in Heq. simpl in Heq. lia.
  - apply (f_equal String.length) in Heq.
    rewrite !string_length_app in Heq. simpl in Heq. lia.
  - change (String a (s1 +:+ t1) = String b (s2 +:+ t2)) in Heq.
    injection Heq as -> Heq. destruct (IH _ Heq) as [-> ->]. done.
Qed.

Lemma slotLabel_inj (h1 h2 : Z) (m1 m2 : string) :
  String.length m1 = String.length m2 →
  slotLabel h1 m1 = slotLabel h2 m2 → h1 = h2 ∧ m1 = m2.
Proof.
  intros Hlen Heq. unfold slotLabel in Heq.
  apply string_app_inj_r in Heq as [Hh Hm];
    [|by rewrite !string_length_app, Hlen].
  split; [by apply (inj pretty)|]. by apply String.app_inj in Hm.
Qed.

(** X1: whatever the two hours, no label stands twice in the grid. *)
Theorem generateTimeSlots_NoDup (startHour endHour : Z) :
  NoDup (generateTimeSlots startHour endHour).
Proof.
  rewrite generateTimeSlots_spec. unfold slotGridSpec.
  apply NoDup_bind; [| |apply NoDup_seqZ].
  - intros h1 h2 label _ _ H1 H2.
    assert (∀ h, label ∈ [slotLabel h "00"; slotLabel h "30"] →
                 ∃ m, String.length m = 2%nat ∧ label = slotLabel h m) as Hm.
    { intros h [->|[->|[]%elem_of_nil]%elem_of_cons]%elem_of_cons;
        [by exists "00"|by exists "30"]. }
    destruct (Hm _ H1) as (m1 & Hl1 & ->), (Hm _ H2) as (m2 & Hl2 & Heq).
    apply slotLabel_inj in Heq as [-> _]; [done|congruence].
  - intros h _. apply NoDup_cons. split; [|apply NoDup_singleton].
    intros [Heq|[]%elem_of_nil]%elem_of_cons.
    by apply slotLabel_inj in Heq as [_ [=]].
Qed.

(** X2: the grid from [startHour] to [endHour] is the grid up to any
    hour between them followed by the grid from that hour on. *)
Theorem generateTimeSlots_app (startHour midHour endHour : Z) :
  startHour ≤ midHour ≤ endHour →
  generateTimeSlots startHour midHour ++ generateTimeSlots midHour endHour
  = generateTimeSlots startHour endHour.
Proof.
  intros Hmid. rewrite !generateTimeSlots_spec. unfold slotGridSpec.
  replace (endHour - startHour)
    with ((midHour - startHour) + (endHour - midHour)) by lia.
  rewrite seqZ_app by lia. rewrite bind_app.
  by replace (startHour + (midHour - startHour)) with midHour by lia.
Qed.

Lemma generateTimeSlots_app_witness :
  9 ≤ 13 ≤ 17 ∧
  generateTimeSlots 9 13 ++ generateTimeSlots 13 17 = generateTimeSlots 9 17.
Proof. split; [lia | apply (generateTimeSlots_app 9 13 17); lia]. Defined.

(** ** The comparator and the ranking *)

(** X3: the comparator is antisymmetric: swapping its arguments negates
    its result, and a task compares as equal to itself. *)
Theorem compareTasks_swap (a b : Task) :
  compareTasks b a = - compareTasks a b ∧ compareTasks a a = 0.
Proof.
  unfold compareTasks. split.
  - destruct (Z.eqb_spec (priorityOrder (priority a))
                (priorityOrder (priority b)));
      destruct (Z.eqb_spec (priorityOrder (priority b))
                  (priorityOrder (priority a))); try lia; simpl;
      destruct (Z.eqb_spec (importanceOrder (importance a))
                  (importanceOrder (importance b)));
      destruct (Z.eqb_spec (importanceOrder (importance b))
                  (importanceOrder (importance a))); try lia; simpl; lia.
  - rewrite !Z.eqb_refl. simpl. lia.
Qed.

Lemma StronglySorted_lookup_lt {A} (R : relation A) (l : list A)
    (i j : nat) (a b : A) :
  StronglySorted R l → l !! i = Some a → l !! j = Some b → (i < j)%nat →
  R a b.
Proof.
  induction 1 as [|x l Hl IH Hx] in i, j |- *; [done|].
  intros Hi Hj Hlt. destruct j as [|j]; [lia|]. simpl in Hj.
  destruct i as [|i]; simpl in Hi.
  - injection Hi as ->. rewrite Forall_forall in Hx. apply Hx.
    by eapply list_elem_of_lookup_2.
  - eapply IH; [done|done|lia].
Qed.

(** X4: in the ranking a task whose key is strictly smaller stands before
    a task whose key is larger; a smaller priority rank alone makes the
    key smaller, whatever the importance and the deadline. *)
Theorem smaller_key_ranks_first (tasks : list Task) (i j : nat) (a b : Task) :
  sortedTasks tasks !! i = Some a →
  sortedTasks tasks !! j = Some b →
  lexLt (rankKey a) (rankKey b) →
  (i < j)%nat.
Proof.
  intros Hi Hj Hlt.
  destruct (decide (i < j)%nat) as [|Hge]; [done|]. exfalso.
  assert (rankLe b a) as Hle.
  { destruct (decide (i = j)) as [->|Hne].
    - assert (a = b) as -> by congruence. by right.
    - eapply (StronglySorted_lookup_lt rankLe);
        [apply sortedTasks_sorted|done|done|lia]. }
  revert Hlt Hle. unfold rankLe, lexLe, lexLt.
  destruct (rankKey a) as [[pa ia] da], (rankKey b) as [[pb ib] db]. simpl.
  intros Hlt [Hlt'|[= -> -> ->]]; lia.
Qed.

Lemma smaller_key_ranks_first_witness :
  sortedTasks sampleTasks !! O = Some taskCall ∧
  sortedTasks sampleTasks !! 1%nat = Some taskWrite ∧
  lexLt (rankKey taskCall) (rankKey taskWrite) ∧
  (0 < 1)%nat.
Proof.
  assert (lexLt (rankKey taskCall) (rankKey taskWrite)) as Hlt
    by (left; reflexivity).
  split; [reflexivity|]. split; [reflexivity|]. split; [exact Hlt|].
  exact (smaller_key_ranks_first sampleTasks 0 1 taskCall taskWrite
           eq_refl eq_refl Hlt).
Defined.

Section ArraySortMore.
Context {A : Type}.
Variable cmp : A → A → Z.

Lemma sortInsert_head (x : A) (l : list A) :
  Forall (cmpLe cmp x) l → sortInsert cmp x l = x :: l.
Proof.
  destruct 1 as [|y l Hy _]; simpl; [done|].
  unfold cmpLe in Hy. by destruct (Z.leb_spec (cmp x y) 0); [|lia].
Qed.

Lemma arraySort_sorted_id (l : list A) :
  StronglySorted (cmpLe cmp) l → arraySort cmp l = l.
Proof.
  induction 1 as [|x l Hl IH Hx]; simpl; [done|].
  rewrite IH. by apply sortInsert_head.
Qed.

Lemma sortInsert_snoc (x t : A) (l : list A) :
  cmpLe cmp x t → sortInsert cmp x (l ++ [t]) = sortInsert cmp x l ++ [t].
Proof.
  intros Hxt. induction l as [|y l IH]; simpl.
  - unfold cmpLe in Hxt. by destruct (Z.leb_spec (cmp x t) 0); [|lia].
  - destruct (cmp x y <=? 0); [done|]. by rewrite IH.
Qed.

(** An element that may stand after all the others stays last. *)
Lemma arraySort_snoc (t : A) (l : list A) :
  Forall (λ a, cmpLe cmp a t) l →
  arraySort cmp (l ++ [t]) = arraySort cmp l ++ [t].
Proof.
  induction 1 as [|x l Hx Hl IH]; simpl; [done|].
  rewrite IH. by apply sortInsert_snoc.
Qed.

Lemma sortInsert_filter_out (P : A → Prop) `{!∀ a, Decision (P a)}
    (x : A) (l : list A) :
  ¬ P x → filter P (sortInsert cmp x l) = filter P l.
Proof.
  intros Hx. induction l as [|y l IH]; simpl.
  - by rewrite filter_cons, decide_False.
  - destruct (cmp x y <=? 0).
    + by rewrite filter_cons, decide_False.
    + by rewrite !(filter_cons _ y), IH.
Qed.

Hypothesis le_total : ∀ a b, cmpLe cmp a b ∨ cmpLe cmp b a.
Hypothesis le_trans : ∀ a b c, cmpLe cmp a b → cmpLe cmp b c → cmpLe cmp a c.

Lemma sortInsert_filter_in (P : A → Prop) `{!∀ a, Decision (P a)}
    (x : A) (l : list A) :
  StronglySorted (cmpLe cmp) l → P x →
  filter P (sortInsert cmp x l) = sortInsert cmp x (filter P l).
Proof.
  intros Hl Hx. induction Hl as [|y l Hl IH Hy]; simpl.
  - by rewrite filter_cons, decide_True.
  - destruct (Z.leb_spec (cmp x y) 0) as [Hxy|Hxy].
    + rewrite (filter_cons _ x), decide_True by done.
      symmetry. apply sortInsert_head.
      apply Forall_forall. intros z Hz.
      apply list_elem_of_filter in Hz as [_ Hz].
      apply elem_of_cons in Hz as [->|Hz]; [done|].
      rewrite Forall_forall in Hy. eapply le_trans; [exact Hxy|by apply Hy].
    + rewrite !(filter_cons _ y). destruct (decide (P y)); simpl.
      * destruct (Z.leb_spec (cmp x y) 0); [lia|]. by rewrite IH.
      * exact IH.
Qed.

(** Sorting what a filter keeps is filtering what the sort gives. *)
Lemma arraySort_filter (P : A → Prop) `{!∀ a, Decision (P a)} (l : list A) :
  arraySort cmp (filter P l) = filter P (arraySort cmp l).
Proof.
  induction l as [|x l IH]; simpl; [done|].
  rewrite filter_cons. destruct (decide (P x)) as [Hx|Hx]; simpl.
  - rewrite IH. symmetry. apply sortInsert_filter_in; [|done].
    by apply arraySort_sorted.
  - rewrite IH. symmetry. by apply sortInsert_filter_out.
Qed.
End ArraySortMore.

(** X5: ranking a ranked list changes nothing: the ranking of a ranking
    is that ranking, and the lists the sort leaves as they are are the
    ranked ones. *)
Theorem ranking_idempotent (tasks : list Task) :
  sortedTasks (sortedTasks tasks) = sortedTasks tasks ∧
  (StronglySorted rankLe tasks ↔ sortedTasks tasks = tasks).
Proof.
  assert (∀ l, StronglySorted rankLe l → sortedTasks l = l) as Hid.
  { intros l Hl. apply arraySort_sorted_id.
    eapply StronglySorted_weaken; [|exact Hl].
    intros a b. apply compareTasks_le. }
  split; [apply Hid, sortedTasks_sorted|]. split; [apply Hid|].
  intros <-. apply sortedTasks_sorted.
Qed.

(** X6: deleting a task and ranking commute: the other tasks keep the
    places they have among themselves in the ranking. *)
Theorem ranking_after_delete (i : Z) (tasks : list Task) :
  sortedTasks (deleteTask i tasks) = deleteTask i (sortedTasks tasks).
Proof.
  unfold sortedTasks, deleteTask.
  apply arraySort_filter; [apply compareTasks_total|apply compareTasks_trans].
Qed.

Lemma sortedTasks_snoc (tasks : list Task) (t : Task) :
  (∀ a, a ∈ tasks → rankLe a t) →
  sortedTasks (tasks ++ [t]) = sortedTasks tasks ++ [t].
Proof.
  intros Hle. apply arraySort_snoc. apply Forall_forall.
  intros a Ha. by apply compareTasks_le, Hle.
Qed.

(** X7: a new task that no task of the list has to stand behind goes to
    the end of the ranking, and the ranking of the others is as before. *)
Theorem addTask_ranked_last (now today : Z) (newTask : NewTask)
    (tasks : list Task) :
  (∀ a, a ∈ tasks → rankLe a (withId now newTask)) →
  sortedTasks (addTask now today newTask tasks).1
  = sortedTasks tasks ++ [withId now newTask].
Proof. intros Hle. by apply sortedTasks_snoc. Qed.

Lemma addTask_ranked_last_witness :
  (∀ a, a ∈ sampleTasks → rankLe a (withId 6 sampleNewTask)) ∧
  sortedTasks (addTask 6 1730419200000 sampleNewTask sampleTasks).1
  = sortedTasks sampleTasks ++ [withId 6 sampleNewTask].
Proof.
  assert (∀ a, a ∈ sampleTasks → rankLe a (withId 6 sampleNewTask)) as Hle.
  { intros a Ha. apply elem_of_cons in Ha as [->|Ha]; [by left; left|].
    apply elem_of_cons in Ha as [->|Ha]; [by left; left|].
    by apply elem_of_nil in Ha. }
  split; [exact Hle|].
  exact (addTask_ranked_last 6 1730419200000 sampleNewTask sampleTasks Hle).
Defined.

(** ** Reachable states of the placement loop *)

Section ReachableFacts.
Variable timeSlots : list string.
Hypothesis timeSlots_NoDup : NoDup timeSlots.

Implicit Types (st : State) (task t u : Task) (d date ref : Z)
  (label l : string) (i j k start n : nat).

(** From a state of the loop a task goes to the cursor when the rest of
    the day has room for it, and to the start of the next day when it has
    not; however many rounds there are. *)
Lemma placeTask_exact fuel task st st' :
  cursorInv timeSlots st →
  placeTask timeSlots fuel task st = Some st' →
  ∃ start,
    placedAt timeSlots st task st' start ∧
    (((currentSlotIndex st + Z.to_nat (slotsNeeded task) ≤ length timeSlots)%nat
      ∧ currentDate st' = currentDate st ∧ start = currentSlotIndex st) ∨
     ((length timeSlots < currentSlotIndex st + Z.to_nat (slotsNeeded task))%nat
      ∧ currentDate st' = currentDate st + 1 ∧ start = O)).
Proof.
  intros Hinv Hplace.
  pose proof (placeTask_needs _ _ _ _ _ Hplace) as Hneeds.
  destruct (placeTask_total _ timeSlots_NoDup fuel task st Hinv Hneeds)
    as (st2 & start & Hplace2 & Hplaced & Hwhere).
  apply (placeTask_fuel_mono _ _ 2) in Hplace.
  rewrite Nat.add_comm in Hplace. simpl Nat.add in Hplace.
  assert (st2 = st') as -> by congruence.
  by exists start.
Qed.

Lemma forEachTask_reachable fuel (ts : list Task) ref st :
  forEachTask timeSlots fuel ts (initialState ref) = Some st →
  cursorInv timeSlots st.
Proof.
  intros Hrun. eapply forEachTask_cursorInv; [done|done|].
  apply cursorInv_initial.
Qed.

(** The run up to a task of the list, the placement of that task at the
    cursor or at the start of the next day, and the rest of the run. *)
Lemma forEachTask_split_exact fuel (pre post : list Task) t ref st' :
  forEachTask timeSlots fuel (pre ++ t :: post) (initialState ref) = Some st' →
  ∃ st1 st2 start,
    forEachTask timeSlots fuel pre (initialState ref) = Some st1 ∧
    cursorInv timeSlots st1 ∧
    placedAt timeSlots st1 t st2 start ∧
    (((currentSlotIndex st1 + Z.to_nat (slotsNeeded t) ≤ length timeSlots)%nat
      ∧ currentDate st2 = currentDate st1 ∧ start = currentSlotIndex st1) ∨
     ((length timeSlots < currentSlotIndex st1 + Z.to_nat (slotsNeeded t))%nat
      ∧ currentDate st2 = currentDate st1 + 1 ∧ start = O)) ∧
    forEachTask timeSlots fuel post st2 = Some st'.
Proof.
  rewrite forEachTask_app.
  destruct (forEachTask timeSlots fuel pre _) as [st1|] eqn:Hpre; [|done].
  simpl. destruct (placeTask timeSlots fuel t st1) as [st2|] eqn:Hplace;
    [|done].
  intros Hpost.
  pose proof (forEachTask_reachable _ _ _ _ Hpre) as Hinv.
  destruct (placeTask_exact _ _ _ _ Hinv Hplace) as (start & Hplaced & Hwhere).
  by exists st1, st2, start.
Qed.

(** *** Packed days *)

Lemma packedInv_initial ref : packedInv timeSlots ref (initialState ref).
Proof.
  split; [done|]. split; [intros j l _ Hj; simpl in Hj; lia|].
  split; [by intros d j j' l l' _ _ _ _ Hocc|]. intros d l [? ?]. simpl in *. lia.
Qed.

Lemma packedInv_step fuel task ref st st' :
  cursorInv timeSlots st → packedInv timeSlots ref st →
  placeTask timeSlots fuel task st = Some st' →
  packedInv timeSlots ref st'.
Proof.
  intros Hinv (Href & Hcur & Hold & Hdays) Hplace.
  destruct (placeTask_exact _ _ _ _ Hinv Hplace) as (start & Hplaced & Hwhere).
  pose proof Hplaced as (Hn & Hc & Hlen & _ & Hin & Hout).
  (* a key that was taken is taken *)
  assert (∀ d l, taskAt (schedule st) d l ≠ None →
                 taskAt (schedule st') d l ≠ None) as Hkeep.
  { intros d l Hocc.
    destruct (inRun_dec timeSlots (currentDate st') start
                (Z.to_nat (slotsNeeded task)) d l) as [Hrun|Hnrun].
    - destruct (Hin d l Hrun) as [_ ->]. done.
    - by rewrite (Hout d l Hnrun). }
  (* on another day than that of [st'] nothing changes *)
  assert (∀ d l, d ≠ currentDate st' →
                 taskAt (schedule st') d l = taskAt (schedule st) d l) as Hother.
  { intros d l Hd. apply Hout. by intros [? _]. }
  (* the current day of [st] is taken up to its cursor, and no further *)
  assert (∀ j j' l l', timeSlots !! j = Some l → timeSlots !! j' = Some l' →
            (j' < j)%nat →
            taskAt (schedule st) (currentDate st) l ≠ None →
            taskAt (schedule st) (currentDate st) l' ≠ None) as Hprefix.
  { intros j j' l l' Hj Hj' Hlt Hocc.
    destruct Hinv as [_ Hbehind].
    destruct (Hbehind _ _ Hocc) as (j0 & Hj0 & Hb).
    assert (j0 = j) as -> by (by eapply slot_index_inj).
    apply (Hcur j'); [done|]. unfold behind in Hb. lia. }
  destruct Hwhere as [(Hfit & Hdate & ->)|(Hnofit & Hdate & ->)].
  - (* the same day *)
    split; [lia|]. split; [|split].
    + intros j l Hj Hjc. rewrite Hdate.
      destruct (decide (j < currentSlotIndex st)%nat) as [Hlt|Hge].
      * apply Hkeep. by eapply Hcur.
      * destruct (Hin (currentDate st') l) as [_ Hset].
        { split; [done|]. exists j. split; [lia|done]. }
        rewrite Hdate in Hset. by rewrite Hset.
    + intros d j j' l l' Hd Hj Hj' Hlt Hocc.
      rewrite Hother in Hocc |- * by lia.
      apply (Hold d j j' l l'); [lia|done..].
    + intros d l Hd Hl. rewrite Hother by lia. apply Hdays; [lia|done].
  - (* the next day *)
    split; [lia|]. split; [|split].
    + intros j l Hj Hjc.
      destruct (Hin (currentDate st') l) as [_ ->]; [|done].
      split; [done|]. exists j. split; [lia|done].
    + intros d j j' l l' Hd Hj Hj' Hlt Hocc.
      rewrite Hother in Hocc |- * by lia.
      destruct (decide (d = currentDate st)) as [->|Hne].
      * by apply (Hprefix j j' l l').
      * apply (Hold d j j' l l'); [lia|done..].
    + intros d l Hd Hl. rewrite Hother by lia.
      destruct (decide (d = currentDate st)) as [->|Hne].
      * apply (Hcur O); [done|]. lia.
      * apply Hdays; [lia|done].
Qed.

Lemma forEachTask_packedInv fuel (ts : list Task) ref st st' :
  cursorInv timeSlots st → packedInv timeSlots ref st →
  forEachTask timeSlots fuel ts st = Some st' →
  cursorInv timeSlots st' ∧ packedInv timeSlots ref st'.
Proof.
  revert st. induction ts as [|t ts IH]; intros st Hinv Hpacked; simpl.
  - by intros [= <-].
  - destruct (placeTask timeSlots fuel t st) as [st1|] eqn:Hplace; [|done].
    apply IH.
    + apply placeTask_placedAt in Hplace as [start Hplaced].
      by eapply placedAt_cursorInv.
    + by eapply packedInv_step.
Qed.

(** In a packed state the taken positions of every day are the first
    ones of the grid. *)
Lemma packed_prefix ref st d j j' l l' :
  cursorInv timeSlots st → packedInv timeSlots ref st →
  timeSlots !! j = Some l → timeSlots !! j' = Some l' → (j' < j)%nat →
  taskAt (schedule st) d l ≠ None → taskAt (schedule st) d l' ≠ None.
Proof.
  intros [_ Hbehind] (_ & Hcur & Hold & _) Hj Hj' Hlt Hocc.
  destruct (Hbehind _ _ Hocc) as (j0 & Hj0 & Hb).
  assert (j0 = j) as -> by (by eapply slot_index_inj).
  destruct Hb as [Hd|[-> Hjc]].
  - by apply (Hold d j j' l l').
  - apply (Hcur j'); [done|lia].
Qed.

(** In a packed state, in day numbers, every day from the reference date
    to a day with a task has a task at the first position of the grid. *)
Lemma packed_days ref st d d' l l0 :
  cursorInv timeSlots st → packedInv timeSlots ref st →
  taskAt (schedule st) d l ≠ None → ref ≤ d' ≤ d →
  timeSlots !! O = Some l0 →
  taskAt (schedule st) d' l0 ≠ None.
Proof.
  intros [_ Hbehind] (_ & Hcur & _ & Hdays) Hocc Hd' Hl0.
  destruct (Hbehind _ _ Hocc) as (j & Hj & Hb).
  destruct (decide (d' < currentDate st)) as [Hlt|Hge].
  - apply Hdays; [lia|done].
  - unfold behind in Hb. assert (d' = currentDate st) as -> by lia.
    apply (Hcur O); [done|lia].
Qed.

(** *** The days a run takes *)

Lemma forEachTask_date_bound fuel (ts : list Task) st st' :
  cursorInv timeSlots st →
  forEachTask timeSlots fuel ts st = Some st' →
  currentDate st' ≤ currentDate st + Z.of_nat (length ts).
Proof.
  revert st. induction ts as [|t ts IH]; intros st Hinv; simpl.
  - intros [= <-]. lia.
  - destruct (placeTask timeSlots fuel t st) as [st1|] eqn:Hplace; [|done].
    intros Hrun.
    destruct (placeTask_exact _ _ _ _ Hinv Hplace) as (start & Hplaced & Hwhere).
    apply IH in Hrun; [|by eapply placedAt_cursorInv]. lia.
Qed.
End ReachableFacts.

(** ** Runs on the default grid *)

Lemma generateSchedule_reach (fuel : nat) (ref : Z) (tasks : list Task)
    (sched : Schedule) :
  generateSchedule fuel ref tasks = Some sched →
  ∃ st, forEachTask defaultTimeSlots fuel (sortedTasks tasks)
          (initialState ref) = Some st ∧
        schedule st = sched ∧
        cursorInv defaultTimeSlots st ∧ packedInv defaultTimeSlots ref st.
Proof.
  intros [st [Hrun <-]]%generateSchedule_run. exists st.
  split; [done|]. split; [done|].
  eapply (forEachTask_packedInv _ defaultTimeSlots_NoDup); [| |exact Hrun].
  - apply cursorInv_initial.
  - apply packedInv_initial.
Qed.

(** X8: a task whose duration is zero or negative is never placed: with
    one in the list the call does not return, however many days the loop
    tries. *)
Theorem nonpositive_duration_never_placed (fuel : nat) (ref : Z)
    (tasks : list Task) (t : Task) :
  t ∈ tasks → duration t ≤ 0 → generateSchedule fuel ref tasks = None.
Proof.
  intros Ht Hdur.
  destruct (generateSchedule fuel ref tasks) as [sched|] eqn:Hgen; [|done].
  apply generateSchedule_run in Hgen as [st [Hrun _]].
  rewrite <- (sortedTasks_perm tasks) in Ht.
  pose proof (forEachTask_needs _ _ _ _ _ _ Hrun Ht) as [Hpos _].
  apply slotsNeeded_positive in Hpos. lia.
Qed.

Lemma nonpositive_duration_never_placed_witness :
  zeroTask ∈ [taskWrite; zeroTask] ∧ duration zeroTask ≤ 0 ∧
  generateSchedule 365 0 [taskWrite; zeroTask] = None.
Proof.
  assert (zeroTask ∈ [taskWrite; zeroTask]) as Hin by (right; left).
  assert (duration zeroTask ≤ 0) as Hdur by reflexivity.
  split; [exact Hin|]. split; [exact Hdur|].
  exact (nonpositive_duration_never_placed 365 0 [taskWrite; zeroTask]
           zeroTask Hin Hdur).
Defined.

(** X9: every slot of the returned schedule holds a task of the input
    under a label of the grid. *)
Theorem schedule_holds_input_tasks (fuel : nat) (ref : Z) (tasks : list Task)
    (sched : Schedule) (d : Z) (label : string) (u : Task) :
  generateSchedule fuel ref tasks = Some sched →
  taskAt sched d label = Some u →
  u ∈ tasks ∧ label ∈ defaultTimeSlots.
Proof.
  intros [st [Hrun <-]]%generateSchedule_run Hat.
  destruct (forEachTask_frame _ defaultTimeSlots_NoDup _ _ _ _ Hrun)
    as [_ Hkeys].
  destruct (Hkeys d label) as [Hsame|(_ & u' & j & Hu & Hnow & Hj & _)].
  - rewrite Hat, taskAt_initial in Hsame. done.
  - assert (u' = u) as -> by congruence.
    split; [by rewrite <- (sortedTasks_perm tasks)|].
    by eapply list_elem_of_lookup_2.
Qed.

Lemma schedule_holds_input_tasks_witness :
  generateSchedule 2 0 sampleTasks = Some sampleSchedule ∧
  taskAt sampleSchedule 0 "10:00" = Some taskWrite ∧
  taskWrite ∈ sampleTasks ∧ "10:00" ∈ defaultTimeSlots.
Proof.
  assert (taskAt sampleSchedule 0 "10:00" = Some taskWrite) as Hat
    by (vm_compute; reflexivity).
  split; [exact sampleSchedule_eq|]. split; [exact Hat|].
  exact (schedule_holds_input_tasks 2 0 sampleTasks sampleSchedule 0 "10:00"
           taskWrite sampleSchedule_eq Hat).
Defined.

(** In day numbers: the days of the returned schedule that have a task
    lie from the reference date on and are fewer than the tasks are. *)
Lemma schedule_days_range (fuel : nat) (ref : Z) (tasks : list Task)
    (sched : Schedule) (d : Z) (label : string) :
  generateSchedule fuel ref tasks = Some sched →
  taskAt sched d label ≠ None →
  ref ≤ d < ref + Z.of_nat (length tasks).
Proof.
  intros [st [Hrun <-]]%generateSchedule_run Hat.
  pose proof (forEachTask_reachable _ defaultTimeSlots_NoDup _ _ _ _ Hrun)
    as [_ Hbehind].
  destruct (Hbehind d label Hat) as (j & Hj & Hb).
  destruct (forEachTask_frame _ defaultTimeSlots_NoDup _ _ _ _ Hrun)
    as [_ Hkeys].
  assert (ref ≤ d) as Href.
  { destruct (Hkeys d label) as [Hsame|(_ & u & j' & _ & _ & Hj' & Hnb & _)].
    - by rewrite taskAt_initial in Hsame.
    - unfold behind in Hnb. simpl in Hnb. lia. }
  split; [done|].
  rewrite <- (Permutation_length (sortedTasks_perm tasks)).
  destruct (sortedTasks tasks) as [|t rest] eqn:Hsorted.
  { simpl in Hrun. injection Hrun as <-. by rewrite taskAt_initial in Hat. }
  apply (forEachTask_split_exact _ defaultTimeSlots_NoDup _ [] rest t) in Hrun
    as (st1 & st2 & start & Hpre & Hinv1 & Hplaced & Hwhere & Hpost).
  injection Hpre as <-.
  pose proof Hplaced as (_ & Hc & Hlen & _).
  assert (currentDate st2 = ref) as Hdate.
  { destruct Hwhere as [(_ & -> & _)|(Hnofit & _ & ->)]; [done|].
    change (currentSlotIndex (initialState ref)) with O in Hnofit. lia. }
  apply (forEachTask_date_bound _ defaultTimeSlots_NoDup) in Hpost;
    [|by eapply (placedAt_cursorInv _ defaultTimeSlots_NoDup)].
  unfold behind in Hb. simpl length. lia.
Qed.

(** X10: the dates of the returned schedule that have a task are not
    before the reference date, and there are no more of them than
    tasks. *)
Theorem schedule_days_bound (fuel : nat) (ref : Z) (tasks : list Task)
    (sched : Schedule) (dates : list Z) :
  generateSchedule fuel ref tasks = Some sched →
  NoDup dates →
  (∀ d, d ∈ dates → ∃ label, taskAt sched d label ≠ None) →
  (length dates ≤ length tasks)%nat ∧ ∀ d, d ∈ dates → ref ≤ d.
Proof.
  intros Hgen Hnd Hdates.
  assert (∀ d, d ∈ dates → ref ≤ d < ref + Z.of_nat (length tasks)) as Hrange.
  { intros d [label Hat]%Hdates. by eapply schedule_days_range. }
  split; [|intros d Hd; by apply Hrange].
  assert (dates ⊆+ seqZ ref (Z.of_nat (length tasks))) as Hsub.
  { apply NoDup_submseteq; [done|]. intros d Hd. by apply elem_of_seqZ, Hrange. }
  apply submseteq_length in Hsub. rewrite length_seqZ in Hsub. lia.
Qed.

Lemma schedule_days_bound_witness :
  generateSchedule 2 0 sampleTasks = Some sampleSchedule ∧
  NoDup [0] ∧
  (∀ d, d ∈ [0] → ∃ label, taskAt sampleSchedule d label ≠ None) ∧
  (length [0] ≤ length sampleTasks)%nat ∧ ∀ d, d ∈ [0] → 0 ≤ d.
Proof.
  assert (NoDup [0]) as Hnd by apply NoDup_singleton.
  assert (∀ d, d ∈ [0] → ∃ label, taskAt sampleSchedule d label ≠ None)
    as Hdates.
  { intros d Hd. apply list_elem_of_singleton in Hd as ->.
    exists "10:00". vm_compute. discriminate. }
  split; [exact sampleSchedule_eq|]. split; [exact Hnd|].
  split; [exact Hdates|].
  exact (schedule_days_bound 2 0 sampleTasks sampleSchedule [0]
           sampleSchedule_eq Hnd Hdates).
Defined.

(** X11: a day of the returned schedule has no free slot before a taken
    one: the taken positions of each day are the first ones of the grid. *)
Theorem days_filled_from_start (fuel : nat) (ref : Z) (tasks : list Task)
    (sched : Schedule) (d : Z) (j j' : nat) (label label' : string) :
  generateSchedule fuel ref tasks = Some sched →
  defaultTimeSlots !! j = Some label →
  defaultTimeSlots !! j' = Some label' →
  (j' < j)%nat →
  taskAt sched d label ≠ None →
  taskAt sched d label' ≠ None.
Proof.
  intros (st & _ & <- & Hinv & Hpacked)%generateSchedule_reach Hj Hj' Hlt.
  by eapply (packed_prefix _ defaultTimeSlots_NoDup).
Qed.

Lemma days_filled_from_start_witness :
  generateSchedule 2 0 sampleTasks = Some sampleSchedule ∧
  defaultTimeSlots !! 2%nat = Some "10:00" ∧
  defaultTimeSlots !! 1%nat = Some "9:30" ∧
  (1 < 2)%nat ∧
  taskAt sampleSchedule 0 "10:00" ≠ None ∧
  taskAt sampleSchedule 0 "9:30" ≠ None.
Proof.
  assert (taskAt sampleSchedule 0 "10:00" ≠ None) as Hat
    by (vm_compute; discriminate).
  split; [exact sampleSchedule_eq|]. split; [reflexivity|].
  split; [reflexivity|]. split; [lia|]. split; [exact Hat|].
  exact (days_filled_from_start 2 0 sampleTasks sampleSchedule 0 2 1
           "10:00" "9:30" sampleSchedule_eq eq_refl eq_refl (le_n 2) Hat).
Defined.

(** The date keys a placement adds to the schedule are those of the day
    numbers it went through, and it does not go back. *)
Lemma placeTask_days (timeSlots : list string) (fuel : nat) (task : Task)
    (st st' : State) :
  placeTask timeSlots fuel task st = Some st' →
  currentDate st ≤ currentDate st' ∧
  ∀ d, is_Some (schedule st' !! d) →
       is_Some (schedule st !! d) ∨ currentDate st ≤ d ≤ currentDate st'.
Proof.
  assert (∀ (s : Schedule) date d,
            is_Some (ensureDay s date !! d) → is_Some (s !! d) ∨ d = date)
    as Hensure.
  { intros s date d. unfold ensureDay.
    destruct (s !! date) eqn:Hday; [by left|].
    destruct (decide (d = date)) as [->|Hne]; [by right|].
    rewrite lookup_insert_ne by done. by left. }
  revert st. induction fuel as [|fuel IH]; intros st; simpl; [done|].
  destruct (scan _ _ _ _ _) as [[i a]|].
  - intros [= <-]. simpl. split; [lia|]. intros d Hd.
    destruct (decide (d = currentDate st)) as [->|Hne]; [right; lia|].
    rewrite lookup_insert_ne in Hd by done.
    destruct (Hensure _ _ _ Hd) as [?|?]; [by left|done].
  - intros Hplace. destruct (IH _ Hplace) as [Hle Hdays]. simpl in Hle, Hdays.
    split; [lia|]. intros d Hd.
    destruct (Hdays d Hd) as [Hold|Hnew]; [|right; lia].
    destruct (Hensure _ _ _ Hold) as [? | ->]; [by left|right; lia].
Qed.

Lemma forEachTask_days (timeSlots : list string) (fuel : nat)
    (ts : list Task) (st st' : State) :
  forEachTask timeSlots fuel ts st = Some st' →
  currentDate st ≤ currentDate st' ∧
  ∀ d, is_Some (schedule st' !! d) →
       is_Some (schedule st !! d) ∨ currentDate st ≤ d ≤ currentDate st'.
Proof.
  revert st. induction ts as [|t ts IH]; intros st; simpl.
  - intros [= <-]. split; [lia|]. by left.
  - destruct (placeTask timeSlots fuel t st) as [st1|] eqn:Hplace; [|done].
    intros Hrun. apply placeTask_days in Hplace as [Hle1 Hdays1].
    destruct (IH _ Hrun) as [Hle Hdays]. split; [lia|]. intros d Hd.
    destruct (Hdays d Hd) as [Hold|Hnew]; [|right; lia].
    destruct (Hdays1 d Hold) as [?|?]; [by left|right; lia].
Qed.

(** After a task has been placed the cursor is not at the start of the
    grid. *)
Lemma forEachTask_cursor_pos (timeSlots : list string) (fuel : nat)
    (ts : list Task) (st st' : State) :
  ts ≠ [] → forEachTask timeSlots fuel ts st = Some st' →
  (0 < currentSlotIndex st')%nat.
Proof.
  intros Hne Hrun.
  assert (∃ pre t, ts = pre ++ [t]) as (pre & t & ->).
  { induction ts as [|a ts _] using rev_ind; [done|]. by exists ts, a. }
  apply forEachTask_split in Hrun as (st1 & st2 & start & _ & Hplaced & Hpost).
  injection Hpost as <-. destruct Hplaced as (Hn & Hc & _). lia.
Qed.

(** X12: the returned schedule has no empty day: every date that is a
    key of it has a task in its first slot, 9:00. *)
Theorem no_empty_day (fuel : nat) (ref : Z) (tasks : list Task)
    (sched : Schedule) (d : Z) :
  generateSchedule fuel ref tasks = Some sched →
  is_Some (sched !! d) →
  taskAt sched d "9:00" ≠ None.
Proof.
  intros (st & Hrun & <- & Hinv & Hpacked)%generateSchedule_reach Hd.
  destruct Hpacked as (_ & Hcur & _ & Hdays).
  destruct (forEachTask_days _ _ _ _ _ Hrun) as [_ Hkeys].
  destruct (Hkeys d Hd) as [[day Hday]|Hrange]; [done|].
  change (currentDate (initialState ref)) with ref in Hrange.
  destruct (decide (d < currentDate st)) as [Hlt|Hge].
  - apply Hdays; [lia|done].
  - assert (d = currentDate st) as -> by lia.
    apply (Hcur O); [done|].
    eapply forEachTask_cursor_pos; [|exact Hrun].
    intros Hnil. rewrite Hnil in Hrun. injection Hrun as <-. by destruct Hd.
Qed.

Lemma no_empty_day_witness :
  generateSchedule 2 0 sampleTasks = Some sampleSchedule ∧
  is_Some (sampleSchedule !! 0) ∧
  taskAt sampleSchedule 0 "9:00" ≠ None.
Proof.
  assert (is_Some (sampleSchedule !! 0)) as Hd.
  { apply (bool_decide_unpack _). vm_compute. exact I. }
  split; [exact sampleSchedule_eq|]. split; [exact Hd|].
  exact (no_empty_day 2 0 sampleTasks sampleSchedule 0 sampleSchedule_eq Hd).
Defined.

(** X13: each task goes where the cursor stands when its turn comes, if
    the rest of that day has room for it, and to the first slot of a
    later date if it has not; its slots are those from there on. *)
Theorem task_placed_at_cursor (fuel : nat) (ref : Z) (tasks : list Task)
    (sched : Schedule) (earlier later : list Task) (t : Task) :
  generateSchedule fuel ref tasks = Some sched →
  sortedTasks tasks = earlier ++ t :: later →
  ∃ st date start,
    forEachTask defaultTimeSlots fuel earlier (initialState ref) = Some st ∧
    (((currentSlotIndex st + Z.to_nat (slotsNeeded t) ≤ 16)%nat ∧
      date = currentDate st ∧ start = currentSlotIndex st) ∨
     ((16 < currentSlotIndex st + Z.to_nat (slotsNeeded t))%nat ∧
      currentDate st < date ∧ start = O)) ∧
    ∀ (j : nat) label,
      (start ≤ j < start + Z.to_nat (slotsNeeded t))%nat →
      defaultTimeSlots !! j = Some label →
      taskAt sched date label = Some t.
Proof.
  intros [st' [Hrun <-]]%generateSchedule_run Hsplit. rewrite Hsplit in Hrun.
  apply (forEachTask_split_exact _ defaultTimeSlots_NoDup) in Hrun
    as (st1 & st2 & start & Hpre & Hinv1 & Hplaced & Hwhere & Hpost).
  exists st1, (currentDate st2), start. split; [done|].
  rewrite defaultTimeSlots_length in Hwhere. split.
  { destruct Hwhere as [?|(? & -> & ?)]; [by left|right].
    split; [done|]. split; [lia|done]. }
  intros j label Hj Hlabel.
  eapply (forEachTask_keeps _ defaultTimeSlots_NoDup); [exact Hpost|].
  destruct Hplaced as (_ & _ & _ & _ & Hin & _). apply Hin.
  split; [done|]. by exists j.
Qed.

Lemma task_placed_at_cursor_witness :
  generateSchedule 2 0 sampleTasks = Some sampleSchedule ∧
  sortedTasks sampleTasks = [taskCall] ++ taskWrite :: [] ∧
  ∃ st date start,
    forEachTask defaultTimeSlots 2 [taskCall] (initialState 0) = Some st ∧
    (((currentSlotIndex st + Z.to_nat (slotsNeeded taskWrite) ≤ 16)%nat ∧
      date = currentDate st ∧ start = currentSlotIndex st) ∨
     ((16 < currentSlotIndex st + Z.to_nat (slotsNeeded taskWrite))%nat ∧
      currentDate st < date ∧ start = O)) ∧
    ∀ (j : nat) label,
      (start ≤ j < start + Z.to_nat (slotsNeeded taskWrite))%nat →
      defaultTimeSlots !! j = Some label →
      taskAt sampleSchedule date label = Some taskWrite.
Proof.
  split; [exact sampleSchedule_eq|]. split; [reflexivity|].
  exact (task_placed_at_cursor 2 0 sampleTasks sampleSchedule [taskCall] []
           taskWrite sampleSchedule_eq eq_refl).
Defined.

(** X14: the first task of the ranking starts at 9:00 on the reference
    date and has the first slots of that day. *)
Theorem first_task_at_start (fuel : nat) (ref : Z) (tasks : list Task)
    (sched : Schedule) (t : Task) :
  generateSchedule fuel ref tasks = Some sched →
  sortedTasks tasks !! O = Some t →
  taskAt sched ref "9:00" = Some t ∧
  ∀ (j : nat) label,
    (j < Z.to_nat (slotsNeeded t))%nat →
    defaultTimeSlots !! j = Some label →
    taskAt sched ref label = Some t.
Proof.
  intros [st' [Hrun <-]]%generateSchedule_run Hfirst.
  destruct (sortedTasks tasks) as [|t' later] eqn:Hsorted; [done|].
  injection Hfirst as ->.
  apply (forEachTask_split_exact _ defaultTimeSlots_NoDup _ [] later t) in Hrun
    as (st1 & st2 & start & Hpre & Hinv1 & Hplaced & Hwhere & Hpost).
  injection Hpre as <-.
  pose proof Hplaced as (Hn & Hc & Hlen & _ & Hin & _).
  change (currentSlotIndex (initialState ref)) with O in Hwhere.
  change (currentDate (initialState ref)) with ref in Hwhere.
  destruct Hwhere as [(_ & Hdate & ->)|(Hnofit & _ & ->)]; [|lia].
  assert (∀ (j : nat) label,
            (j < Z.to_nat (slotsNeeded t))%nat →
            defaultTimeSlots !! j = Some label →
            taskAt (schedule st') ref label = Some t) as Hslots.
  { intros j label Hj Hlabel.
    eapply (forEachTask_keeps _ defaultTimeSlots_NoDup); [exact Hpost|].
    rewrite <- Hdate. apply Hin. split; [done|]. exists j. split; [lia|done]. }
  split; [|exact Hslots]. apply (Hslots O); [lia|done].
Qed.

Lemma first_task_at_start_witness :
  generateSchedule 2 0 sampleTasks = Some sampleSchedule ∧
  sortedTasks sampleTasks !! O = Some taskCall ∧
  taskAt sampleSchedule 0 "9:00" = Some taskCall ∧
  ∀ (j : nat) label,
    (j < Z.to_nat (slotsNeeded taskCall))%nat →
    defaultTimeSlots !! j = Some label →
    taskAt sampleSchedule 0 label = Some taskCall.
Proof.
  split; [exact sampleSchedule_eq|]. split; [reflexivity|].
  exact (first_task_at_start 2 0 sampleTasks sampleSchedule taskCall
           sampleSchedule_eq eq_refl).
Defined.

(** The cursor between two tasks of the ranking: the slots of the
    earlier one are behind it, those of the later one are not. *)
Lemma ranked_pair_cursor (fuel : nat) (ref : Z) (tasks : list Task)
    (sched : Schedule) (i1 i2 : nat) (t1 t2 : Task) (d1 d2 : Z)
    (j1 j2 : nat) (l1 l2 : string) :
  generateSchedule fuel ref tasks = Some sched →
  NoDup tasks → (i1 < i2)%nat →
  sortedTasks tasks !! i1 = Some t1 → sortedTasks tasks !! i2 = Some t2 →
  defaultTimeSlots !! j1 = Some l1 → defaultTimeSlots !! j2 = Some l2 →
  taskAt sched d1 l1 = Some t1 → taskAt sched d2 l2 = Some t2 →
  ∃ st, behind st d1 j1 ∧ ¬ behind st d2 j2.
Proof.
  intros [st' [Hrun <-]]%generateSchedule_run Hnd Hlt Hi1 Hi2 Hj1 Hj2 Hat1 Hat2.
  rewrite <- (sortedTasks_perm tasks) in Hnd.
  rewrite <- (take_drop i2 (sortedTasks tasks)) in Hrun, Hnd.
  assert (t1 ∈ take i2 (sortedTasks tasks)) as Hin1.
  { apply list_elem_of_lookup. exists i1. by apply lookup_take_Some. }
  assert (t2 ∈ drop i2 (sortedTasks tasks)) as Hin2.
  { apply list_elem_of_lookup. exists O. by rewrite lookup_drop, Nat.add_0_r. }
  apply NoDup_app in Hnd as (_ & Hdisj & _).
  rewrite forEachTask_app in Hrun.
  destruct (forEachTask defaultTimeSlots fuel (take i2 _) _)
    as [st|] eqn:Hpre; [|done].
  simpl in Hrun. exists st. split.
  - destruct (forEachTask_holds _ defaultTimeSlots_NoDup _ _ _ _ _ _ _
                Hrun Hat1) as [Hin|Hst].
    { by destruct (Hdisj t1). }
    destruct (forEachTask_frame _ defaultTimeSlots_NoDup _ _ _ _ Hpre)
      as [_ Hkeys].
    destruct (Hkeys d1 l1) as [Hsame|(_ & u & j & _ & _ & Hl & _ & Hb)].
    + rewrite Hst, taskAt_initial in Hsame. done.
    + by rewrite (slot_index_inj _ defaultTimeSlots_NoDup _ _ _ Hj1 Hl).
  - destruct (forEachTask_frame _ defaultTimeSlots_NoDup _ _ _ _ Hrun)
      as [_ Hkeys].
    destruct (Hkeys d2 l2) as [Hsame|(_ & u & j & _ & _ & Hl & Hnb & _)].
    + rewrite Hat2 in Hsame. symmetry in Hsame.
      destruct (forEachTask_holds _ defaultTimeSlots_NoDup _ _ _ _ _ _ _
                  Hpre Hsame) as [Hin|Hinit].
      * by destruct (Hdisj t2).
      * by rewrite taskAt_initial in Hinit.
    + by rewrite (slot_index_inj _ defaultTimeSlots_NoDup _ _ _ Hj2 Hl).
Qed.

(** X15: a task later in the ranking is never on an earlier day than a
    task before it. *)
Theorem ranking_order_of_days (fuel : nat) (ref : Z) (tasks : list Task)
    (sched : Schedule) (i1 i2 : nat) (t1 t2 : Task) (d1 d2 : Z)
    (l1 l2 : string) :
  generateSchedule fuel ref tasks = Some sched →
  NoDup tasks → (i1 < i2)%nat →
  sortedTasks tasks !! i1 = Some t1 → sortedTasks tasks !! i2 = Some t2 →
  taskAt sched d1 l1 = Some t1 → taskAt sched d2 l2 = Some t2 →
  d1 ≤ d2.
Proof.
  intros Hgen Hnd Hlt Hi1 Hi2 Hat1 Hat2.
  assert (∀ d l u, taskAt sched d l = Some u →
                   ∃ j : nat, defaultTimeSlots !! j = Some l) as Hgrid.
  { intros d l u Hat. pose proof Hgen as [st [Hrun <-]]%generateSchedule_run.
    destruct (forEachTask_frame _ defaultTimeSlots_NoDup _ _ _ _ Hrun)
      as [_ Hkeys].
    destruct (Hkeys d l) as [Hsame|(_ & _ & j & _ & _ & Hj & _)]; [|eauto].
    by rewrite Hat, taskAt_initial in Hsame. }
  destruct (Hgrid _ _ _ Hat1) as [j1 Hj1], (Hgrid _ _ _ Hat2) as [j2 Hj2].
  destruct (ranked_pair_cursor fuel ref tasks sched i1 i2 t1 t2 d1 d2 j1 j2
              l1 l2) as (st & Hb1 & Hb2); try done.
  unfold behind in Hb1, Hb2. lia.
Qed.

Lemma ranking_order_of_days_witness :
  generateSchedule 2 0 sampleTasks = Some sampleSchedule ∧
  NoDup sampleTasks ∧ (0 < 1)%nat ∧
  sortedTasks sampleTasks !! O = Some taskCall ∧
  sortedTasks sampleTasks !! 1%nat = Some taskWrite ∧
  taskAt sampleSchedule 0 "9:00" = Some taskCall ∧
  taskAt sampleSchedule 0 "10:00" = Some taskWrite ∧
  0 ≤ 0.
Proof.
  assert (taskAt sampleSchedule 0 "9:00" = Some taskCall) as Hat1
    by (vm_compute; reflexivity).
  assert (taskAt sampleSchedule 0 "10:00" = Some taskWrite) as Hat2
    by (vm_compute; reflexivity).
  split; [exact sampleSchedule_eq|]. split; [exact sampleTasks_NoDup|].
  split; [lia|]. split; [reflexivity|]. split; [reflexivity|].
  split; [exact Hat1|]. split; [exact Hat2|].
  exact (ranking_order_of_days 2 0 sampleTasks sampleSchedule 0 1
           taskCall taskWrite 0 0 "9:00" "10:00" sampleSchedule_eq
           sampleTasks_NoDup (le_n 1) eq_refl eq_refl Hat1 Hat2).
Defined.



(** ** The task list of the component *)

Lemma deleteTask_fresh (i : Z) (tasks : list Task) :
  (∀ a, a ∈ tasks → id a ≠ i) → deleteTask i tasks = tasks.
Proof.
  intros Hfresh. unfold deleteTask.
  induction tasks as [|t tasks IH]; [done|].
  rewrite filter_cons, decide_True by (apply Hfresh; by left).
  f_equal. apply IH. intros a Ha. apply Hfresh. by right.
Qed.

(** X17: deleting the id of the task just added gives the list it was
    added to, less the tasks that had this id already; with an id that
    no task had, the list itself. *)
Theorem delete_added_task (now today : Z) (newTask : NewTask)
    (tasks : list Task) :
  deleteTask now (addTask now today newTask tasks).1 = deleteTask now tasks ∧
  ((∀ a, a ∈ tasks → id a ≠ now) →
   deleteTask now (addTask now today newTask tasks).1 = tasks).
Proof.
  assert (deleteTask now (addTask now today newTask tasks).1
          = deleteTask now tasks) as Heq.
  { unfold deleteTask, addTask. simpl. rewrite filter_app.
    rewrite (filter_cons _ (withId now newTask)), decide_False
      by (simpl; tauto).
    apply app_nil_r. }
  split; [exact Heq|]. intros Hfresh. rewrite Heq. by apply deleteTask_fresh.
Qed.

Lemma sampleTasks_fresh_id : ∀ a, a ∈ sampleTasks → id a ≠ 6.
Proof.
  intros a Ha. apply elem_of_cons in Ha as [->|Ha]; [discriminate|].
  apply elem_of_cons in Ha as [->|Ha]; [discriminate|].
  by apply elem_of_nil in Ha.
Defined.

Lemma delete_added_task_witness :
  (∀ a, a ∈ sampleTasks → id a ≠ 6) ∧
  deleteTask 6 (addTask 6 1730419200000 sampleNewTask sampleTasks).1
  = sampleTasks.
Proof.
  split; [exact sampleTasks_fresh_id|].
  exact (proj2 (delete_added_task 6 1730419200000 sampleNewTask sampleTasks)
           sampleTasks_fresh_id).
Defined.

(** X18: when the ids of the list are different from each other and from
    the clock value, they are so after [addTask]. *)
Theorem addTask_unique_ids (now today : Z) (newTask : NewTask)
    (tasks : list Task) :
  NoDup (id <$> tasks) → now ∉ (id <$> tasks) →
  NoDup (id <$> (addTask now today newTask tasks).1).
Proof.
  intros Hnd Hfresh. unfold addTask. simpl. rewrite fmap_app.
  apply NoDup_app. split; [done|]. split; [|apply NoDup_singleton].
  intros i Hi [->|[]%elem_of_nil]%elem_of_cons. done.
Qed.

Lemma addTask_unique_ids_witness :
  NoDup (id <$> sampleTasks) ∧ (6 ∉ (id <$> sampleTasks)) ∧
  NoDup (id <$> (addTask 6 1730419200000 sampleNewTask sampleTasks).1).
Proof.
  assert (NoDup (id <$> sampleTasks)) as Hnd
    by (apply (bool_decide_unpack _); vm_compute; exact I).
  assert (6 ∉ (id <$> sampleTasks)) as Hfresh
    by (apply (bool_decide_unpack _); vm_compute; exact I).
  split; [exact Hnd|]. split; [exact Hfresh|].
  exact (addTask_unique_ids 6 1730419200000 sampleNewTask sampleTasks
           Hnd Hfresh).
Defined.

(** X19: after [deleteTask] no task has the deleted id, the tasks left
    stand in the order they had, an id that no task has deletes nothing,
    and two deletions give the same list in either order. *)
Theorem deleteTask_laws (i j : Z) (tasks : list Task) :
  (i ∉ (id <$> deleteTask i tasks)) ∧
  deleteTask i tasks `sublist_of` tasks ∧
  (i ∉ (id <$> tasks) → deleteTask i tasks = tasks) ∧
  deleteTask i (deleteTask j tasks) = deleteTask j (deleteTask i tasks).
Proof.
  split; [|split; [|split]].
  - intros (t & Hid & Ht)%list_elem_of_fmap.
    apply list_elem_of_filter in Ht as [Hne _]. by apply Hne.
  - apply sublist_filter.
  - intros Hfresh. apply deleteTask_fresh. intros a Ha Hid.
    apply Hfresh, list_elem_of_fmap. by exists a.
  - unfold deleteTask. rewrite !list_filter_filter.
    apply list_filter_iff. tauto.
Qed.

Lemma deleteTask_laws_witness :
  (6 ∉ (id <$> sampleTasks)) ∧ deleteTask 6 sampleTasks = sampleTasks.
Proof.
  assert (6 ∉ (id <$> sampleTasks)) as Hfresh
    by (apply (bool_decide_unpack _); vm_compute; exact I).
  split; [exact Hfresh|].
  exact (proj1 (proj2 (proj2 (deleteTask_laws 6 6 sampleTasks))) Hfresh).
Defined.

(** ** The effects of the component *)

Lemma tasksEffect_empty (fuel : nat) (now : Z) (app : App) :
  appTasks app = [] → tasksEffect fuel now app = Some app.
Proof.
  intros Hempty. unfold tasksEffect, persistTasks. rewrite Hempty.
  unfold scheduleTasks. by rewrite Hempty.
Qed.

(** X20: when a deletion empties the task list, the effect writes
    nothing: the schedule on display stays the schedule of the deleted
    tasks, and the stored list still gives them back when it is loaded. *)
Theorem delete_all_leaves_schedule (fuel fuel' : nat) (now now' i : Z)
    (app app1 : App) :
  appTasks app ≠ [] →
  tasksEffect fuel now app = Some app1 →
  deleteTask i (appTasks app1) = [] →
  ∃ app2,
    tasksEffect fuel' now' (clickDelete i app1) = Some app2 ∧
    appTasks app2 = [] ∧
    appSchedule app2 = appSchedule app1 ∧
    generateSchedule fuel now (appTasks app) = Some (appSchedule app2) ∧
    appStorage app2 = appStorage app1 ∧
    appTasks (loadTasks app2) = appTasks app.
Proof.
  intros Hne Heffect Hempty. exists (clickDelete i app1).
  assert (tasksEffect fuel' now' (clickDelete i app1)
          = Some (clickDelete i app1)) as Hsecond.
  { apply tasksEffect_empty. exact Hempty. }
  split; [exact Hsecond|]. clear Hsecond.
  unfold tasksEffect, scheduleTasks, persistTasks in Heffect.
  destruct (appTasks app) as [|t tasks] eqn:Htasks; [done|].
  simpl in Heffect.
  destruct (generateSchedule fuel now (t :: tasks)) as [sched|] eqn:Hgen;
    [|done].
  injection Heffect as <-. simpl in *. done.
Qed.

Lemma delete_all_leaves_schedule_witness :
  appTasks sampleApp ≠ [] ∧
  ∃ app1,
    tasksEffect 2 0 sampleApp = Some app1 ∧
    deleteTask 1 (appTasks app1) = [] ∧
    ∃ app2,
      tasksEffect 2 1 (clickDelete 1 app1) = Some app2 ∧
      appTasks app2 = [] ∧
      appSchedule app2 = appSchedule app1 ∧
      generateSchedule 2 0 (appTasks sampleApp) = Some (appSchedule app2) ∧
      appStorage app2 = appStorage app1 ∧
      appTasks (loadTasks app2) = appTasks sampleApp.
Proof.
  assert (appTasks sampleApp ≠ []) as Hne by discriminate.
  destruct (tasksEffect 2 0 sampleApp) as [app1|] eqn:Heffect;
    [|by vm_compute in Heffect].
  assert (deleteTask 1 (appTasks app1) = []) as Hempty.
  { assert (appTasks <$> tasksEffect 2 0 sampleApp = Some [taskWrite]) as Ht
      by (vm_compute; reflexivity).
    rewrite Heffect in Ht. injection Ht as ->. reflexivity. }
  split; [exact Hne|]. exists app1. split; [reflexivity|].
  split; [exact Hempty|].
  exact (delete_all_leaves_schedule 2 2 0 1 1 sampleApp app1
           Hne Heffect Hempty).
Defined.

(** X21: the effect never stores an empty task list.  Its first
    statement stores a task list that is not empty and leaves the stored
    schedule as it was; when the effect returns, the stored schedule is
    the one on display, the schedule of the stored task list. *)
Theorem tasksEffect_storage (fuel : nat) (now : Z) (app : App) :
  storedTasks (appStorage app) ≠ Some [] →
  storedTasks (appStorage (persistTasks app)) ≠ Some [] ∧
  storedSchedule (appStorage (persistTasks app))
  = storedSchedule (appStorage app) ∧
  (appTasks app ≠ [] →
   storedTasks (appStorage (persistTasks app)) = Some (appTasks app)) ∧
  ∀ app', tasksEffect fuel now app = Some app' →
    storedTasks (appStorage app') ≠ Some [] ∧
    (storageOk (appStorage app) → storageOk (appStorage app')) ∧
    (appTasks app ≠ [] →
     storedTasks (appStorage app') = Some (appTasks app) ∧
     storedSchedule (appStorage app') = Some (appSchedule app') ∧
     generateSchedule fuel now (appTasks app) = Some (appSchedule app')).
Proof.
  intros Hstored. unfold tasksEffect, scheduleTasks, persistTasks.
  destruct (appTasks app) as [|t tasks] eqn:Htasks.
  - split_and!; try done. rewrite Htasks. by intros app' [= <-].
  - simpl. split_and!; try done.
    intros app'.
    destruct (generateSchedule fuel now (t :: tasks)) as [sched|] eqn:Hgen;
      [|done].
    intros [= <-]. simpl. split_and!; try done.
    intros _. unfold storageOk. simpl. split; [done|].
    exists sched. split; [done|]. by exists fuel, now.
Qed.

Lemma tasksEffect_storage_witness :
  storedTasks (appStorage sampleApp) ≠ Some [] ∧
  storedTasks (appStorage (persistTasks sampleApp)) ≠ Some [] ∧
  storedSchedule (appStorage (persistTasks sampleApp))
  = storedSchedule (appStorage sampleApp) ∧
  (appTasks sampleApp ≠ [] →
   storedTasks (appStorage (persistTasks sampleApp))
   = Some (appTasks sampleApp)) ∧
  ∀ app', tasksEffect 2 0 sampleApp = Some app' →
    storedTasks (appStorage app') ≠ Some [] ∧
    (storageOk (appStorage sampleApp) → storageOk (appStorage app')) ∧
    (appTasks sampleApp ≠ [] →
     storedTasks (appStorage app') = Some (appTasks sampleApp) ∧
     storedSchedule (appStorage app') = Some (appSchedule app') ∧
     generateSchedule 2 0 (appTasks sampleApp) = Some (appSchedule app')).
Proof.
  assert (storedTasks (appStorage sampleApp) ≠ Some []) as Hstored
    by discriminate.
  split; [exact Hstored|].
  exact (tasksEffect_storage 2 0 sampleApp Hstored).
Defined.

(** The storage out of step: with the workshop in the task list the
    effect stores the new list and does not return, so the stored
    schedule stays that of the report. *)
Example workshopApp_out_of_step :
  storageOk (appStorage workshopApp) ∧
  (∀ fuel now, tasksEffect fuel now workshopApp = None) ∧
  storedTasks (appStorage (persistTasks workshopApp)) = Some [longTask] ∧
  storedSchedule (appStorage (persistTasks workshopApp))
  = generateSchedule 2 0 [taskWrite] ∧
  ¬ storageOk (appStorage (persistTasks workshopApp)).
Proof.
  assert (∀ fuel now, generateSchedule fuel now [longTask] = None) as Hnone.
  { intros fuel now.
    destruct (generateSchedule fuel now [longTask]) as [sched|] eqn:Hgen;
      [|done].
    apply generateSchedule_run in Hgen as [st [Hrun _]].
    assert (longTask ∈ sortedTasks [longTask]) as Hin by (by left).
    pose proof (forEachTask_needs _ _ _ _ _ _ Hrun Hin) as [_ Hle].
    by vm_compute in Hle. }
  split_and!.
  - split; [done|]. eexists. split; [by vm_compute|]. by exists 2%nat, 0.
  - intros fuel now. unfold tasksEffect, scheduleTasks. simpl.
    by rewrite Hnone.
  - done.
  - done.
  - intros (_ & sched & _ & fuel & now & Hgen). simpl in Hgen.
    by rewrite Hnone in Hgen.
Qed.
